(** * scripts/generate_todo_issues.py: a shallow embedding and its properties

    The script turns a grep-style report ([file:line:text] per line) into a
    CSV backlog and one markdown ticket per finding.  This development
    embeds its functions ([guess_props], [parse_line], [sanitize_title],
    [main]) together with the parts of the Python runtime they call
    ([str.split], [str.strip], [int], [re], [csv]) and proves the properties
    the specification states about them.

    Python strings are sequences of Unicode code points: [str] is [list N].
    What the interpreter knows about code points outside ASCII (the Unicode
    character database) is a parameter, [PyRuntime]; every theorem holds for
    all of its values. *)

From Stdlib Require Import String Ascii.
From Stdlib Require Import List ZArith NArith Lia Bool DecimalN.
Import ListNotations.

Set Implicit Arguments.

(** ** Strings *)

Definition str := list N.

(** [u "abc"] is the Python literal ['abc'] (ASCII literals only). *)
Definition u (s : string) : str :=
  map N_of_ascii (list_ascii_of_string s).
Arguments u s%_string.

Definition LF : N := 10.
Definition CR : N := 13.
Definition DQUOTE : N := 34.

Definition is_LF (c : N) : bool := (c =? LF)%N.

Definition is_empty (s : str) : bool :=
  match s with [] => true | _ => false end.

(** [sep.join(parts)] *)
Fixpoint join (sep : str) (parts : list str) : str :=
  match parts with
  | [] => []
  | [p] => p
  | p :: ps => p ++ sep ++ join sep ps
  end.

(** [s[:n]] for [n >= 0] *)
Definition prefix (n : nat) (s : str) : str := firstn n s.

(** [needle in hay] *)
Fixpoint startswith (needle hay : str) : bool :=
  match needle, hay with
  | [], _ => true
  | _ :: _, [] => false
  | a :: n', b :: h' => (a =? b)%N && startswith n' h'
  end.

Fixpoint contains (needle hay : str) : bool :=
  startswith needle hay ||
  match hay with
  | [] => false
  | _ :: h' => contains needle h'
  end.

(** [s.split(sep, maxsplit)] for a one-character separator *)
Fixpoint split (sep : N) (s : str) (maxsplit : nat) : list str :=
  match s with
  | [] => [[]]
  | c :: r =>
      match maxsplit with
      | O => [s]
      | S k =>
          if (c =? sep)%N then [] :: split sep r k
          else match split sep r maxsplit with
               | p :: ps => (c :: p) :: ps
               | [] => [[c]]
               end
      end
  end.

(** [s.replace(a, b)] for one-character [a] and [b] *)
Definition replace (a b : N) (s : str) : str :=
  map (fun c => if (c =? a)%N then b else c) s.

(** [s.rstrip(chars)] and [s.lstrip(chars)], the set of characters given as
    a predicate *)
Fixpoint rstrip_by (p : N -> bool) (s : str) : str :=
  match s with
  | [] => []
  | c :: r =>
      match rstrip_by p r with
      | [] => if p c then [] else [c]
      | r' => c :: r'
      end
  end.

Fixpoint lstrip_by (p : N -> bool) (s : str) : str :=
  match s with
  | [] => []
  | c :: r => if p c then lstrip_by p r else s
  end.

Definition strip_by (p : N -> bool) (s : str) : str :=
  rstrip_by p (lstrip_by p s).

(** [str(n)] and [f"{n:04d}"] for an integer *)
Fixpoint digits_of_uint (d : Decimal.uint) : str :=
  match d with
  | Decimal.Nil => []
  | Decimal.D0 r => 48%N :: digits_of_uint r
  | Decimal.D1 r => 49%N :: digits_of_uint r
  | Decimal.D2 r => 50%N :: digits_of_uint r
  | Decimal.D3 r => 51%N :: digits_of_uint r
  | Decimal.D4 r => 52%N :: digits_of_uint r
  | Decimal.D5 r => 53%N :: digits_of_uint r
  | Decimal.D6 r => 54%N :: digits_of_uint r
  | Decimal.D7 r => 55%N :: digits_of_uint r
  | Decimal.D8 r => 56%N :: digits_of_uint r
  | Decimal.D9 r => 57%N :: digits_of_uint r
  end.

Definition str_of_N (n : N) : str := digits_of_uint (N.to_uint n).

Definition str_of_int (z : Z) : str :=
  match z with
  | Zneg p => 45%N :: str_of_N (Npos p)
  | _ => str_of_N (Z.to_N z)
  end.

(** [f"{z:04d}"]: the sign, then the digits zero-padded so that the whole
    has at least four characters *)
Definition zfill (width : nat) (digits : str) : str :=
  repeat 48%N (width - length digits) ++ digits.

Definition format_04d (z : Z) : str :=
  match z with
  | Zneg p => 45%N :: zfill 3 (str_of_N (Npos p))
  | _ => zfill 4 (str_of_N (Z.to_N z))
  end.

(** [l[start:stop]] with Python's treatment of negative and out-of-range
    bounds *)
Definition adjust_index (len i : Z) : Z :=
  if (i <? 0)%Z then (if (i + len <? 0)%Z then 0 else i + len)%Z
  else if (len <? i)%Z then len else i.

Definition py_slice (A : Type) (l : list A) (start stop : Z) : list A :=
  let len := Z.of_nat (length l) in
  let a := adjust_index len start in
  let b := adjust_index len stop in
  firstn (Z.to_nat (b - a)) (skipn (Z.to_nat a) l).

(** [enumerate(l, start)] *)
Fixpoint enumerate (A : Type) (l : list A) (start : Z) : list (Z * A) :=
  match l with
  | [] => []
  | x :: r => (start, x) :: enumerate r (start + 1)
  end.

(** ** The interpreter's view of Unicode

    ASCII is fixed; for the other code points the functions below consult
    the runtime's tables. *)

Record PyRuntime := {
  (** [str.isspace] of one code point *)
  ucd_isspace : N -> bool;
  (** [str.isalnum] of one code point *)
  ucd_isalnum : N -> bool;
  (** the decimal digit value of a code point, if it is a decimal digit *)
  ucd_decimal : N -> option N;
  (** the simple lower-case mapping *)
  ucd_tolower : N -> N;
  (** [sys.get_int_max_str_digits()], 0 meaning no limit *)
  int_max_str_digits : N
}.

(** the value of a step that may raise *)
Inductive result (A : Type) :=
| Ok (x : A)
| Raises (err : str).

Arguments Ok {A} x.
Arguments Raises {A} err.

Definition result_map {A B : Type} (f : A -> B) (r : result A) : result B :=
  match r with
  | Ok x => Ok (f x)
  | Raises e => Raises e
  end.

Section Runtime.

Variable rt : PyRuntime.

Definition in_range (lo hi c : N) : bool := ((lo <=? c) && (c <=? hi))%N.

Definition is_ascii_digit (c : N) : bool := in_range 48 57 c.
Definition is_ascii_upper (c : N) : bool := in_range 65 90 c.
Definition is_ascii_lower (c : N) : bool := in_range 97 122 c.
Definition is_ascii_alnum (c : N) : bool :=
  is_ascii_digit c || is_ascii_upper c || is_ascii_lower c.

(** [Py_UNICODE_ISSPACE] *)
Definition isspace (c : N) : bool :=
  if (c <? 128)%N then in_range 9 13 c || in_range 28 32 c
  else ucd_isspace rt c.

(** [Py_UNICODE_ISALNUM] *)
Definition isalnum (c : N) : bool :=
  if (c <? 128)%N then is_ascii_alnum c else ucd_isalnum rt c.

(** [Py_UNICODE_TOLOWER] *)
Definition tolower (c : N) : N :=
  if (c <? 128)%N then (if is_ascii_upper c then c + 32 else c)%N
  else ucd_tolower rt c.

(** [s.strip()], [s.rstrip()] *)
Definition strip (s : str) : str := strip_by isspace s.
Definition rstrip (s : str) : str := rstrip_by isspace s.

(** [s.lower()], used by the script on ASCII constants only *)
Definition lower (s : str) : str := map tolower s.

(** *** [int(s)]

    The text is first brought to ASCII (Unicode spaces become a blank,
    Unicode decimal digits the ASCII digit, anything else ['?']); then
    blanks, an optional sign, digits with single underscores between them,
    blanks.  [None] is [ValueError]. *)

(** [Py_UNICODE_TODECIMAL] *)
Definition todecimal (c : N) : option N :=
  if (c <? 128)%N then (if is_ascii_digit c then Some (c - 48)%N else None)
  else ucd_decimal rt c.

Definition to_ascii_decimal (c : N) : N :=
  if (c <? 127)%N then c
  else if isspace c then 32%N
  else match todecimal c with
       | Some d => (48 + d)%N
       | None => 63%N
       end.

(** [Py_ISSPACE] of the C locale *)
Definition c_isspace (c : N) : bool := in_range 9 13 c || (c =? 32)%N.

Definition digit_value (c : N) : Z := Z.of_N c - 48.

(** the digits after the first one; yields value, number of digits and the
    unread rest *)
Fixpoint scan_digits (acc : Z) (count : N) (s : str) : option (Z * N * str) :=
  match s with
  | [] => Some (acc, count, [])
  | c :: r =>
      if is_ascii_digit c
      then scan_digits (10 * acc + digit_value c) (count + 1) r
      else if (c =? 95)%N then
        match r with
        | d :: r' =>
            if is_ascii_digit d
            then scan_digits (10 * acc + digit_value d) (count + 1) r'
            else None
        | [] => None
        end
      else Some (acc, count, s)
  end.

Definition digits_allowed (count : N) : bool :=
  if (640 <? count)%N
  then negb ((0 <? int_max_str_digits rt) && (int_max_str_digits rt <? count))%N
  else true.

Definition parse_unsigned (s : str) : option Z :=
  match s with
  | c :: r =>
      if is_ascii_digit c then
        match scan_digits (digit_value c) 1 r with
        | Some (v, count, rest) =>
            if is_empty (lstrip_by c_isspace rest) && digits_allowed count
            then Some v else None
        | None => None
        end
      else None
  | [] => None
  end.

Definition py_int (s : str) : option Z :=
  match lstrip_by c_isspace (map to_ascii_decimal s) with
  | c :: r =>
      if (c =? 43)%N then parse_unsigned r
      else if (c =? 45)%N then option_map Z.opp (parse_unsigned r)
      else parse_unsigned (c :: r)
  | [] => None
  end.

(** ** [parse_line] *)

Definition COLON : N := 58.

Definition parse_line (line : str) : option (str * Z * str) :=
  let parts := split COLON line 2 in
  if (length parts <? 3)%nat then None
  else
    let file_path := strip (nth 0 parts []) in
    let line_no := strip (nth 1 parts []) in
    let content :=
      if is_empty (nth 2 parts []) then [] else rstrip (nth 2 parts []) in
    let line_no :=
      match py_int line_no with
      | Some v => v
      | None => 0%Z
      end in
    Some (file_path, line_no, content).

(** ** The classifier: [PRIORITY_MAP] and [guess_props]

    The patterns of [PRIORITY_MAP] use three constructs of [re]: literal
    characters, alternation and the word boundary [\b].  A compiled
    pattern is the list of its alternatives. *)

Inductive atom :=
| Lit (c : N)
| WordBoundary.

Definition regex := list (list atom).

Definition BACKSLASH : N := 92.
Definition BAR : N := 124.

(** one alternative, up to the next [|] *)
Fixpoint parse_branch (p : str) : list atom * str :=
  match p with
  | [] => ([], [])
  | c :: r =>
      if (c =? BAR)%N then ([], p)
      else if (c =? BACKSLASH)%N then
        match r with
        | e :: r' =>
            let (atoms, rest) := parse_branch r' in
            ((if (e =? 98)%N then WordBoundary else Lit e) :: atoms, rest)
        | [] => ([Lit c], [])
        end
      else
        let (atoms, rest) := parse_branch r in (Lit c :: atoms, rest)
  end.

Fixpoint parse_alternatives (fuel : nat) (p : str) : regex :=
  match fuel with
  | O => []
  | S k =>
      let (atoms, rest) := parse_branch p in
      match rest with
      | _ :: rest' => atoms :: parse_alternatives k rest'
      | [] => [atoms]
      end
  end.

(** [re.compile(pattern, re.I)] *)
Definition re_compile (pattern : str) : regex :=
  parse_alternatives (S (length pattern)) pattern.

(** A literal of the pattern against a character of the text under
    [re.I]: an uncased literal matches itself; a cased one matches every
    character with the same lower case, and [i] and [s] also the dotless i
    and the long s. *)
Definition is_ascii_letter (c : N) : bool :=
  is_ascii_upper c || is_ascii_lower c.

Definition literal_matches (p x : N) : bool :=
  if is_ascii_letter p then
    let lo := tolower p in
    let lx := tolower x in
    (lx =? lo)%N
    || ((lo =? 105)%N && (lx =? 305)%N)
    || ((lo =? 115)%N && (lx =? 383)%N)
  else (x =? p)%N.

Definition is_word (c : option N) : bool :=
  match c with
  | Some c => isalnum c || (c =? 95)%N
  | None => false
  end.

(** the atoms against the text at one position; [prev] is the character
    before that position *)
Fixpoint match_here (atoms : list atom) (prev : option N) (s : str) : bool :=
  match atoms with
  | [] => true
  | Lit p :: rest =>
      match s with
      | x :: s' => literal_matches p x && match_here rest (Some x) s'
      | [] => false
      end
  | WordBoundary :: rest =>
      xorb (is_word prev) (is_word (hd_error s)) && match_here rest prev s
  end.

Fixpoint search_from (rx : regex) (prev : option N) (s : str) : bool :=
  existsb (fun alt => match_here alt prev s) rx
  || match s with
     | [] => false
     | x :: s' => search_from rx (Some x) s'
     end.

(** [bool(rx.search(s))] *)
Definition search (rx : regex) (s : str) : bool := search_from rx None s.

Definition rule := (regex * str * str * Z)%type.

Definition PRIORITY_MAP : list rule :=
  [ (re_compile (u "syscalls|process|thread|signal|futex|sched|execve|fork|waitpid"),
     u "Critical", u "Kernel Engineer", 40%Z);
    (re_compile (u "vfs|fs|inode|directory|ext4"),
     u "Critical", u "Filesystems Engineer", 40%Z);
    (re_compile (u "memory|mmap|mincore|mlock|munlock|page|mm\b|advanced_mmap"),
     u "High", u "Memory/MM Engineer", 32%Z);
    (re_compile (u "security|permission|seccomp|selinux|aslr|smap|smep|cap"),
     u "Critical", u "Security Engineer", 40%Z);
    (re_compile (u "driver|virtio|device_manager|driver binding|probe"),
     u "High", u "Driver Engineer", 36%Z);
    (re_compile (u "zero_copy|io_uring|splice|sendfile|performance|benchmark"),
     u "Medium", u "Performance Engineer", 24%Z);
    (re_compile (u "graphics|gui|input|hit testing"),
     u "Low", u "Graphics Engineer", 16%Z);
    (re_compile (u "test|placeholder|integration_test|bench"),
     u "Low", u "QA/Tester", 8%Z) ].

Definition props := (str * str * Z)%type.

Definition DEFAULT_PROPS : props := (u "Medium", u "Engineer", 16%Z).

(** the [for] loop of [guess_props] over a rule table *)
Fixpoint first_match (rules : list rule) (ctx : str) : props :=
  match rules with
  | [] => DEFAULT_PROPS
  | (rx, pr, owner, hrs) :: rest =>
      if search rx ctx then (pr, owner, hrs) else first_match rest ctx
  end.

Definition guess_props (path text : str) : props :=
  let ctx := path ++ u " " ++ text in
  first_match PRIORITY_MAP ctx.

(** ** Marker detection (the inner loop of [main]) *)

Definition MARKERS : list str :=
  [u "TODO"; u "FIXME"; u "STUB"; u "placeholder"; u "Temporary"; u "hack"].

Fixpoint first_marker (ms : list str) (content : str) : option str :=
  match ms with
  | [] => None
  | m :: rest => if contains m content then Some m else first_marker rest content
  end.

(** [marker or 'NOTE'] *)
Definition detect_marker (content : str) : str :=
  match first_marker MARKERS content with
  | Some m => if is_empty m then u "NOTE" else m
  | None => u "NOTE"
  end.

(** ** [sanitize_title] *)

(** [re.sub("[...]+", repl, s)]: every maximal run of characters of the
    class is replaced by [repl] *)
Fixpoint re_sub_run (cls : N -> bool) (repl : str) (in_run : bool) (s : str)
  : str :=
  match s with
  | [] => []
  | c :: r =>
      if cls c
      then (if in_run then [] else repl) ++ re_sub_run cls repl true r
      else c :: re_sub_run cls repl false r
  end.

Definition re_sub (cls : N -> bool) (repl s : str) : str :=
  re_sub_run cls repl false s.

(** the class [[0-9A-Za-z-_ ]] *)
Definition title_char (c : N) : bool :=
  is_ascii_digit c || is_ascii_upper c || is_ascii_lower c
  || (c =? 45)%N || (c =? 95)%N || (c =? 32)%N.

(** the class [[ \t]] *)
Definition blank (c : N) : bool := (c =? 32)%N || (c =? 9)%N.

Definition sanitize_title (text : str) : str :=
  let t := strip (re_sub (fun c => negb (title_char c)) [] text) in
  let t := re_sub blank (u " ") t in
  let t := if (60 <? length t)%nat then rstrip (prefix 60 t) else t in
  if is_empty t then u "todo" else replace 32 95 t.

(** ** Files

    The script reads the report and the referenced source files and writes
    under [docs/issues].  A [World] is what one run finds on disk: texts are
    as Python returns them (decoded, newlines translated to [\n]).  The
    referenced files are all read before the first file is written, so what
    a path holds does not change while they are looked up.

    Looking a path up ([exists()]) answers yes or no, or raises (a name
    that is too long, a directory that may not be searched); the script
    guards the read of a referenced file but not the lookup before it. *)

Inductive read_result :=
| ReadOk (text : str)         (* it is there and reads as [text] *)
| ReadError (msg : str)       (* it is there and reading it raises *)
| LookupError (msg : str).    (* [exists()] itself raises *)

Record World := {
  (** [Path(__file__).resolve().parents[1]], as printed *)
  ROOT : str;
  (** the report [INPUT]; [None] when [exists()] answers no *)
  input : option read_result;
  (** [ROOT / file_path]; [None] when [exists()] answers no *)
  source : str -> option read_result;
  (** the error, if any, that creating or writing a path raises *)
  write_error : str -> option str
}.

Definition INPUT (w : World) : str := ROOT w ++ u "/docs/TODO_GREP_OUTPUT.txt".
Definition OUTDIR (w : World) : str := ROOT w ++ u "/docs/issues".
Definition OUTCSV (w : World) : str := OUTDIR w ++ u "/todos.csv".

(** [for ln in f]: the lines of a text, each with its terminator *)
Fixpoint file_lines (text : str) : list str :=
  match text with
  | [] => []
  | c :: r =>
      if (c =? LF)%N then [LF] :: file_lines r
      else match file_lines r with
           | l :: ls => (c :: l) :: ls
           | [] => [[c]]
           end
  end.

(** [text.splitlines()] *)
Definition is_linebreak (c : N) : bool :=
  in_range 10 13 c || in_range 28 30 c || (c =? 133)%N
  || (c =? 8232)%N || (c =? 8233)%N.

Fixpoint splitlines (text : str) : list str :=
  match text with
  | [] => []
  | c :: r =>
      if is_linebreak c then
        match r with
        | d :: r' =>
            if (c =? CR)%N && (d =? LF)%N
            then [] :: splitlines r'
            else [] :: splitlines r
        | [] => [[]]
        end
      else match splitlines r with
           | l :: ls => (c :: l) :: ls
           | [] => [[c]]
           end
  end.

(** ** The context snippet *)

Definition numbered (p : Z * str) : str :=
  str_of_int (fst p + 1) ++ u ": " ++ snd p.

Definition snippet_of (all_lines : list str) (line_no : Z) : str :=
  let start := Z.max 0 (line_no - 4) in
  let end_ := Z.min (Z.of_nat (length all_lines)) (line_no + 3) in
  let snippet := py_slice all_lines start end_ in
  join [LF] (map numbered (enumerate snippet start)).

(** [ctx_snippet]: [abs_file.exists()] is called outside the [try], so an
    error of the lookup leaves the loop; an error of the read is caught *)
Definition context_of (w : World) (file_path : str) (line_no : Z)
  : result str :=
  match source w file_path with
  | Some (LookupError e) => Raises e
  | Some (ReadOk text) => Ok (snippet_of (splitlines text) line_no)
  | Some (ReadError e) => Ok (u "(failed to read file: " ++ e ++ u ")")
  | None => Ok (u "(file not found)")
  end.

(** ** Findings: the body of the reading loop of [main] *)

Record item := {
  file : str;
  line : Z;
  marker : str;
  content : str;
  context : str;
  priority : str;
  owner : str;
  estimate_hours : Z;
  labels : str
}.

Definition SEMICOLON : N := 59.

(** the finding appended for a parsed line, once its context is known *)
Definition make_item (parsed : str * Z * str) (ctx_snippet : str) : item :=
  let '(file_path, line_no, content) := parsed in
  let marker := detect_marker content in
  let '(suggested_priority, suggested_owner_role, suggested_estimate_hours) :=
    guess_props file_path content in
  let suggested_labels := [lower suggested_priority; lower marker] in
  {| file := file_path;
     line := line_no;
     marker := marker;
     content := strip content;
     context := ctx_snippet;
     priority := suggested_priority;
     owner := suggested_owner_role;
     estimate_hours := suggested_estimate_hours;
     labels := join [SEMICOLON] suggested_labels |}.

(** one turn of the loop: [Skip] is [continue], [Abort] an error that
    leaves the loop *)
Inductive turn :=
| Skip
| Found (it : item)
| Abort (err : str).

Definition read_line (w : World) (ln : str) : turn :=
  let ln := rstrip_by is_LF ln in
  if is_empty ln then Skip
  else match parse_line ln with
       | None => Skip
       | Some parsed =>
           match context_of w (fst (fst parsed)) (snd (fst parsed)) with
           | Ok ctx_snippet => Found (make_item parsed ctx_snippet)
           | Raises e => Abort e
           end
       end.

(** the loop: the findings in the order of the lines, or the first error *)
Fixpoint read_items (w : World) (lines : list str) : result (list item) :=
  match lines with
  | [] => Ok []
  | ln :: rest =>
      match read_line w ln with
      | Skip => read_items w rest
      | Found it => result_map (cons it) (read_items w rest)
      | Abort e => Raises e
      end
  end.

(** ** The tabular renderer: [csv.DictWriter] with the default dialect

    Delimiter comma, quote character the double quote, doubled inside a
    quoted field, [QUOTE_MINIMAL], line terminator [\r\n]. *)

Definition COMMA : N := 44.

Definition must_quote (c : N) : bool :=
  (c =? COMMA)%N || (c =? DQUOTE)%N || (c =? CR)%N || (c =? LF)%N.

Definition double_quotes (field : str) : str :=
  flat_map (fun c => if (c =? DQUOTE)%N then [DQUOTE; DQUOTE] else [c]) field.

Definition csv_field (field : str) : str :=
  if existsb must_quote field
  then DQUOTE :: double_quotes field ++ [DQUOTE]
  else field.

(** [writer.writerow(fields)]: the text written.  A record made of one
    empty field is written as a pair of quotes. *)
Definition writerow (fields : list str) : str :=
  match fields with
  | [[]] => [DQUOTE; DQUOTE; CR; LF]
  | _ => join [COMMA] (map csv_field fields) ++ [CR; LF]
  end.

Definition fieldnames : list str :=
  [u "id"; u "file"; u "line"; u "marker"; u "content"; u "context";
   u "priority"; u "owner"; u "estimate_hours"; u "labels"].

(** the row [DictWriter] makes of [item_row]: the values in the order of
    [fieldnames], numbers through [str] *)
Definition item_row (i : Z) (it : item) : list str :=
  [str_of_int i; file it; str_of_int (line it); marker it; content it;
   context it; priority it; owner it; str_of_int (estimate_hours it);
   labels it].

Definition csv_rows (items : list item) : list (list str) :=
  map (fun p => item_row (fst p) (snd p)) (enumerate items 1).

(** what is written to [OUTCSV] *)
Definition csv_text (items : list item) : str :=
  writerow fieldnames ++ flat_map writerow (csv_rows items).

(** ** The document renderer *)

Definition BACKTICK : N := 96.
Definition FENCE : str := [BACKTICK; BACKTICK; BACKTICK].

Definition doc_title (it : item) : str :=
  if is_empty (content it)
  then u "TODO in " ++ file it ++ u ":" ++ str_of_int (line it)
  else content it.

Definition doc_safe (it : item) : str :=
  sanitize_title (prefix 80 (content it)).

Definition doc_filename (w : World) (i : Z) (it : item) : str :=
  OUTDIR w ++ u "/" ++ format_04d i ++ u "-" ++ doc_safe it ++ u ".md".

Definition doc_body (i : Z) (it : item) : str :=
  u "# [" ++ format_04d i ++ u "] " ++ doc_title it ++ [LF; LF]
  ++ u "**File:** `" ++ file it ++ u "`" ++ [LF]
  ++ u "**Line:** " ++ str_of_int (line it) ++ [LF]
  ++ u "**Marker:** " ++ marker it ++ [LF]
  ++ u "**Suggested Priority:** " ++ priority it ++ [LF]
  ++ u "**Suggested Owner Role:** " ++ owner it ++ [LF]
  ++ u "**Suggested Estimate (hours):** " ++ str_of_int (estimate_hours it)
  ++ [LF]
  ++ u "**Suggested Labels:** `" ++ labels it ++ u "`" ++ [LF; LF]
  ++ u "## Context" ++ [LF; LF] ++ FENCE ++ [LF]
  ++ context it ++ [LF]
  ++ FENCE ++ [LF; LF]
  ++ u "## Recommended next steps" ++ [LF]
  ++ u "- Confirm the owner and adjust scope estimate\- Add unit/integration tests to cover intended behavior"
  ++ [LF]
  ++ u "- Produce a PR that either implements the missing behavior or documents a migration if it's a stub"
  ++ [LF].

Definition EM_DASH : N := 8212.

Definition README_TEXT : str :=
  u "# TODO Issues Import" ++ [LF; LF]
  ++ u "This directory contains:" ++ [LF]
  ++ u "- `todos.csv` " ++ [EM_DASH]
  ++ u " a CSV with all discovered TODO-like items (id, file, line, content, context, priority, owner, estimate_hours, labels)"
  ++ [LF]
  ++ u "- `<id>-... .md` " ++ [EM_DASH]
  ++ u " per-item issue templates ready to paste into your Issue tracker"
  ++ [LF; LF]
  ++ u "How to import to GitHub Issues (example using gh CLI):" ++ [LF]
  ++ u "1) Review and adjust `todos.csv` if needed" ++ [LF]
  ++ u "2) For each line, use `gh issue create` with title and body from corresponding markdown file"
  ++ [LF; LF]
  ++ u "Example:" ++ [LF]
  ++ FENCE ++ u "bash" ++ [LF]
  ++ u "# Create issue for item 0001" ++ [LF]
  ++ u "gh issue create --title " ++ [DQUOTE] ++ u "[0001] <short title>"
  ++ [DQUOTE] ++ u " --body-file docs/issues/0001-... .md --label "
  ++ [DQUOTE] ++ u "priority: critical" ++ [DQUOTE] ++ [LF]
  ++ FENCE ++ [LF; LF]
  ++ u "Or bulk-create using GitHub API scripts " ++ [EM_DASH]
  ++ u " ensure to rate-limit and check permissions." ++ [LF].

(** ** [main]

    A run is observed through what it prints, creates and writes, in
    order, and through how it ends. *)

Inductive effect :=
| Print (text : str)
| Mkdir (path : str)
| WriteText (path text : str).

Inductive outcome :=
| Returned
| Raised (err : str).

(** one turn of the loop over the documents: the write or, when it fails,
    the report of the failure *)
Definition write_doc (w : World) (p : Z * item) : effect :=
  let filename := doc_filename w (fst p) (snd p) in
  match write_error w filename with
  | None => WriteText filename (doc_body (fst p) (snd p))
  | Some e =>
      Print (u "Failed writing " ++ filename ++ u " " ++ e ++ [LF])
  end.

Definition write_docs (w : World) (items : list item) : list effect :=
  map (write_doc w) (enumerate items 1).

Definition done_message (w : World) (items : list item) : str :=
  u "Done: " ++ str_of_int (Z.of_nat (length items)) ++ u " items -> "
  ++ OUTCSV w ++ [LF] ++ u "Per-item markdown files under " ++ OUTDIR w
  ++ [LF].

Definition main (w : World) : list effect * outcome :=
  match input w with
  | None => ([Print (u "Input file not found: " ++ INPUT w ++ [LF])], Returned)
  | Some (LookupError e) => ([], Raised e)
  | Some report =>
      (* ensure_outdir() *)
      match write_error w (OUTDIR w) with
      | Some e => ([], Raised e)
      | None =>
          match report with
          | LookupError e | ReadError e => ([Mkdir (OUTDIR w)], Raised e)
          | ReadOk text =>
              match read_items w (file_lines text) with
              | Raises e => ([Mkdir (OUTDIR w)], Raised e)
              | Ok items =>
                  match write_error w (OUTCSV w) with
                  | Some e => ([Mkdir (OUTDIR w)], Raised e)
                  | None =>
                      let written :=
                        [Mkdir (OUTDIR w);
                         WriteText (OUTCSV w) (csv_text items)]
                        ++ write_docs w items in
                      let readme := OUTDIR w ++ u "/README.md" in
                      match write_error w readme with
                      | Some e => (written, Raised e)
                      | None =>
                          (written
                           ++ [WriteText readme README_TEXT;
                               Print (done_message w items)],
                           Returned)
                      end
                  end
              end
          end
      end
  end.

End Runtime.

(** ** Reading the table back: [csv.reader] with the default dialect

    The reader is fed the file line by line (the file opened with
    [newline=''], so a line ends after [\n], after [\r\n], or after a
    [\r] that no [\n] follows, and keeps its terminator): every character
    of the line, then an end-of-line event.  A record is complete when the
    state is back at [START_RECORD] after a line.  A field may hold as many
    characters as [csv.field_size_limit()] says; one more is [csv.Error]. *)

Module Reader.

Inductive state :=
| START_RECORD
| START_FIELD
| IN_FIELD
| IN_QUOTED_FIELD
| QUOTE_IN_QUOTED_FIELD
| EAT_CRNL.

Inductive event :=
| Ch (c : N)
| EOL.

Record t := {
  st : state;
  field : str;
  fields : list str
}.

Definition reset : t := {| st := START_RECORD; field := []; fields := [] |}.

(** the limit a fresh interpreter starts with *)
Definition FIELD_LIMIT : N := 131072.

Section Limit.

Variable field_limit : N.

(** [parse_add_char]; [None] is [csv.Error] *)
Definition add_char (r : t) (c : N) (s : state) : option t :=
  if (field_limit <=? N.of_nat (length (field r)))%N then None
  else Some {| st := s; field := field r ++ [c]; fields := fields r |}.

Definition save_field (r : t) (s : state) : t :=
  {| st := s; field := []; fields := fields r ++ [field r] |}.

Definition goto (r : t) (s : state) : t :=
  {| st := s; field := field r; fields := fields r |}.

Definition is_newline (c : N) : bool := (c =? LF)%N || (c =? CR)%N.

Definition start_field (r : t) (e : event) : option t :=
  match e with
  | EOL => Some (save_field r START_RECORD)
  | Ch c =>
      if is_newline c then Some (save_field r EAT_CRNL)
      else if (c =? DQUOTE)%N then Some (goto r IN_QUOTED_FIELD)
      else if (c =? COMMA)%N then Some (save_field r START_FIELD)
      else add_char r c IN_FIELD
  end.

(** [parse_process_char]; [None] is [csv.Error] *)
Definition parse_process_char (r : t) (e : event) : option t :=
  match st r with
  | START_RECORD =>
      match e with
      | EOL => Some r
      | Ch c =>
          if is_newline c then Some (goto r EAT_CRNL)
          else start_field r e
      end
  | START_FIELD => start_field r e
  | IN_FIELD =>
      match e with
      | EOL => Some (save_field r START_RECORD)
      | Ch c =>
          if is_newline c then Some (save_field r EAT_CRNL)
          else if (c =? COMMA)%N then Some (save_field r START_FIELD)
          else add_char r c IN_FIELD
      end
  | IN_QUOTED_FIELD =>
      match e with
      | EOL => Some r
      | Ch c =>
          if (c =? DQUOTE)%N then Some (goto r QUOTE_IN_QUOTED_FIELD)
          else add_char r c IN_QUOTED_FIELD
      end
  | QUOTE_IN_QUOTED_FIELD =>
      match e with
      | EOL => Some (save_field r START_RECORD)
      | Ch c =>
          if (c =? DQUOTE)%N then add_char r c IN_QUOTED_FIELD
          else if (c =? COMMA)%N then Some (save_field r START_FIELD)
          else if is_newline c then Some (save_field r EAT_CRNL)
          else add_char r c IN_FIELD
      end
  | EAT_CRNL =>
      match e with
      | EOL => Some (goto r START_RECORD)
      | Ch c => if is_newline c then Some r else None
      end
  end.

(** the lines of a text opened with [newline=''] *)
Fixpoint lines (text : str) : list str :=
  match text with
  | [] => []
  | c :: r =>
      if (c =? LF)%N then [LF] :: lines r
      else if (c =? CR)%N then
        match r with
        | d :: r' =>
            if (d =? LF)%N then [CR; LF] :: lines r' else [CR] :: lines r
        | [] => [[CR]]
        end
      else match lines r with
           | l :: ls => (c :: l) :: ls
           | [] => [[c]]
           end
  end.

Definition events (ls : list str) : list event :=
  flat_map (fun l => map Ch l ++ [EOL]) ls.

Definition at_start (r : t) : bool :=
  match st r with START_RECORD => true | _ => false end.

Definition in_quoted (r : t) : bool :=
  match st r with IN_QUOTED_FIELD => true | _ => false end.

(** the records read so far and the reader, after one more event *)
Definition feed (acc : option (list (list str) * t)) (e : event)
  : option (list (list str) * t) :=
  match acc with
  | None => None
  | Some (records, r) =>
      match parse_process_char r e with
      | None => None
      | Some r' =>
          match e with
          | EOL =>
              if at_start r' then Some (records ++ [fields r'], reset)
              else Some (records, r')
          | Ch _ => Some (records, r')
          end
      end
  end.

(** the end of the input: a record cut short by it is still returned *)
Definition finish (acc : option (list (list str) * t))
  : option (list (list str)) :=
  match acc with
  | None => None
  | Some (records, r) =>
      if negb (is_empty (field r)) || in_quoted r
      then Some (records ++ [fields r ++ [field r]])
      else Some records
  end.

(** [list(csv.reader(f))] *)
Definition read (text : str) : option (list (list str)) :=
  finish (fold_left feed (events (lines text)) (Some ([], reset))).

(** The same events, produced one character at a time: what is known
    about the current line is whether it is still empty, has characters, or
    ends in a [\r] that may yet be followed by [\n]. *)
Inductive line_state :=
| Closed
| Open
| PendingCR.

Definition next_char (ls : line_state) (c : N) : list event * line_state :=
  match ls with
  | PendingCR =>
      if (c =? LF)%N then ([Ch c; EOL], Closed)
      else if (c =? CR)%N then ([EOL; Ch c], PendingCR)
      else ([EOL; Ch c], Open)
  | _ =>
      if (c =? LF)%N then ([Ch c; EOL], Closed)
      else if (c =? CR)%N then ([Ch c], PendingCR)
      else ([Ch c], Open)
  end.

Fixpoint stream (text : str) (ls : line_state) : list event :=
  match text with
  | [] => match ls with Closed => [] | _ => [EOL] end
  | c :: r => fst (next_char ls c) ++ stream r (snd (next_char ls c))
  end.

Definition go (acc : option (list (list str) * t)) (ls : line_state)
  (text : str) : option (list (list str) * t) :=
  fold_left feed (stream text ls) acc.

End Limit.

(** a field that the reader takes: it is within the limit *)
Definition fits (limit : N) (f : str) : Prop :=
  (N.of_nat (length f) <= limit)%N.

(** the reader at the start of a field *)
Definition fresh (s : state) (fs : list str) : t :=
  {| st := s; field := []; fields := fs |}.

Definition starting (s : state) : Prop := s = START_RECORD \/ s = START_FIELD.

(** after the text of a field: where the reader stands *)
Definition after_field (f : str) (s : state) (fs : list str) (ls : line_state)
  : t * line_state :=
  if existsb must_quote f
  then ({| st := QUOTE_IN_QUOTED_FIELD; field := f; fields := fs |}, Open)
  else match f with
       | [] => (fresh s fs, ls)
       | _ => ({| st := IN_FIELD; field := f; fields := fs |}, Open)
       end.

End Reader.

(** ** Notions used in the statements *)

(** [m] occurs in [s] as a substring *)
Definition occurs_in (m s : str) : Prop := exists a b, s = a ++ m ++ b.

(** the ASCII letters in upper case, everything else unchanged *)
Definition ascii_upper (c : N) : N :=
  if is_ascii_lower c then (c - 32)%N else c.

Definition NOTE : str := u "NOTE".

(** the characters of a safe title: [[0-9A-Za-z_-]] *)
Definition token_char (c : N) : bool :=
  is_ascii_alnum c || (c =? 45)%N || (c =? 95)%N.

(** the line-number field of a report line, as [parse_line] hands it to
    [int] *)
Definition line_no_field (rt : PyRuntime) (ln : str) : str :=
  strip rt (nth 1 (split COLON ln 2) []).

Definition colons (s : str) : nat := count_occ N.eq_dec s COLON.

(** the number written by a string of decimal digits *)
Definition decimal_value (ds : str) : Z :=
  fold_left (fun acc c => (10 * acc + digit_value c)%Z) ds 0%Z.

(** an effect that leaves something on disk *)
Definition is_output (e : effect) : bool :=
  match e with
  | Print _ => false
  | Mkdir _ => true
  | WriteText _ _ => true
  end.

Definition found (t : turn) : list item :=
  match t with
  | Found it => [it]
  | _ => []
  end.

(** a report line that the parser accepts *)
Definition well_formed (rt : PyRuntime) (ln : str) : bool :=
  match parse_line rt (rstrip_by is_LF ln) with
  | Some _ => true
  | None => false
  end.

(** the window of the context snippet as the specification words it: the
    lines with 0-based index [i], [max(0, lineNo-4) <= i < min(lineCount,
    lineNo+3)], each behind its 1-based number *)
Definition index_range (lo hi : Z) : list Z :=
  map (fun k => (lo + Z.of_nat k)%Z) (seq 0 (Z.to_nat (hi - lo))).

Definition window (line_count line_no : Z) : list Z :=
  index_range (Z.max 0 (line_no - 4)) (Z.min line_count (line_no + 3)).

Definition snippet_spec (all_lines : list str) (line_no : Z) : str :=
  join [LF]
    (map (fun i => str_of_int (i + 1) ++ u ": " ++ nth (Z.to_nat i) all_lines [])
       (window (Z.of_nat (length all_lines)) line_no)).

(** The safe title as the specification words it: of the first 80
    characters keep those of [[0-9A-Za-z_ -]], collapse every run of
    whitespace to one blank, cut at 60 characters and drop trailing
    whitespace, fall back to [todo], turn blanks into underscores.  With
    [trim], leading and trailing whitespace is removed before the runs are
    collapsed. *)
Fixpoint collapse_whitespace (rt : PyRuntime) (in_run : bool) (s : str) : str :=
  match s with
  | [] => []
  | c :: r =>
      if isspace rt c
      then (if in_run then [] else [32%N]) ++ collapse_whitespace rt true r
      else c :: collapse_whitespace rt false r
  end.

Definition safe_title_words (rt : PyRuntime) (trim : bool) (text : str) : str :=
  let t := filter title_char (firstn 80 text) in
  let t := if trim then strip rt t else t in
  let t := collapse_whitespace rt false t in
  let t := rstrip rt (firstn 60 t) in
  if is_empty t then u "todo" else replace 32 95 t.

(** a text that does not end in a character of [p] *)
Definition ends_clean (p : N -> bool) (t : str) : Prop :=
  forall a c, t = a ++ [c] -> p c = false.

(** the text [sanitize_title] holds before the fall-back and the
    underscores *)
Definition title_core (rt : PyRuntime) (text : str) : str :=
  rstrip rt
    (firstn 60
       (collapse_whitespace rt false (strip rt (filter title_char text)))).

(** a file of ten lines *)
Definition ten_lines : list str :=
  [u "a"; u "b"; u "c"; u "d"; u "e"; u "f"; u "g"; u "h"; u "i"; u "j"].

(** the pattern and the outcome of a rule of [PRIORITY_MAP] *)
Definition rx_of (r : rule) : regex := fst (fst (fst r)).
Definition props_of (r : rule) : props :=
  (snd (fst (fst r)), snd (fst r), snd r).

(** the values the inferred columns of a finding can take *)
Definition PRIORITIES : list str :=
  [u "Critical"; u "High"; u "Medium"; u "Low"].

Definition LABELS : list str :=
  map (fun pm => fst pm ++ [SEMICOLON] ++ snd pm)
    (list_prod
       [u "critical"; u "high"; u "medium"; u "low"]
       [u "todo"; u "fixme"; u "stub"; u "placeholder"; u "temporary";
        u "hack"; u "note"]).

Fixpoint str_eqb (a b : str) : bool :=
  match a, b with
  | [], [] => true
  | x :: a', y :: b' => (x =? y)%N && str_eqb a' b'
  | _, _ => false
  end.

Definition mem (x : str) (l : list str) : bool := existsb (str_eqb x) l.

(** the keywords of the first rule *)
Definition KERNEL_WORDS : list str :=
  [u "syscalls"; u "process"; u "thread"; u "signal"; u "futex"; u "sched";
   u "execve"; u "fork"; u "waitpid"].

(** the keyword an alternative of a pattern spells, when it holds no word
    boundary *)
Fixpoint word_of (alt : list atom) : option str :=
  match alt with
  | [] => Some []
  | Lit c :: rest => option_map (cons c) (word_of rest)
  | WordBoundary :: _ => None
  end.

Definition SLASH : N := 47.

(** the name of a document inside [OUTDIR] *)
Definition doc_name (rt : PyRuntime) (i : Z) (it : item) : str :=
  format_04d i ++ u "-" ++ doc_safe rt it ++ u ".md".

(** the portable file name characters, [[0-9A-Za-z._-]] *)
Definition portable_char (c : N) : bool :=
  is_ascii_alnum c || (c =? 45)%N || (c =? 95)%N || (c =? 46)%N.

(** the index document, [OUTDIR / 'README.md'] *)
Definition README (w : World) : str := OUTDIR w ++ u "/README.md".

(** A runtime that knows ASCII only; used to run the model on examples. *)
Definition ascii_runtime : PyRuntime :=
  {| ucd_isspace := fun _ => false;
     ucd_isalnum := fun _ => false;
     ucd_decimal := fun _ => None;
     ucd_tolower := fun c => c;
     int_max_str_digits := 4300 |}.

Example parse_line_ex1 rt :
  parse_line rt (u "kernel/sched.c:120:    // TODO: implement real scheduler")
  = Some (u "kernel/sched.c", 120%Z, u "    // TODO: implement real scheduler").
Proof. vm_compute. reflexivity. Qed.

Example parse_line_ex2 rt :
  parse_line rt (u "a.c: -1_0 :x:y  ") = Some (u "a.c", (-10)%Z, u "x:y").
Proof. vm_compute. reflexivity. Qed.

Example parse_line_ex3 rt : parse_line rt (u "a.c:12") = None.
Proof. vm_compute. reflexivity. Qed.

Example guess_props_ex1 rt :
  guess_props rt (u "kernel/sched.c") (u "    // TODO: implement real scheduler")
  = (u "Critical", u "Kernel Engineer", 40%Z).
Proof. vm_compute. reflexivity. Qed.

Example guess_props_ex2 rt :
  guess_props rt (u "ui/button.c") (u "    // placeholder hit testing")
  = (u "Low", u "Graphics Engineer", 16%Z).
Proof. vm_compute. reflexivity. Qed.

Example guess_props_ex3 rt :
  guess_props rt (u "lib/mm.c") (u "x") = (u "High", u "Memory/MM Engineer", 32%Z)
  /\ guess_props rt (u "lib/mm_x.c") (u "x") = DEFAULT_PROPS.
Proof. split; vm_compute; reflexivity. Qed.

Example sanitize_title_ex1 rt :
  sanitize_title rt (u "// TODO: implement real scheduler")
  = u "TODO_implement_real_scheduler".
Proof. vm_compute. reflexivity. Qed.

Example sanitize_title_ex2 rt :
  sanitize_title rt (u "") = u "todo" /\ sanitize_title rt (u "?!...") = u "todo"
  /\ sanitize_title rt (u "! hello") = u "hello".
Proof. repeat split; vm_compute; reflexivity. Qed.

Example reader_ex1 :
  Reader.read Reader.FIELD_LIMIT
    (u "a,b" ++ [CR; LF] ++ [DQUOTE] ++ u "x,y" ++ [LF; DQUOTE; DQUOTE]
     ++ u "z" ++ [DQUOTE] ++ u ",c" ++ [CR; LF])
  = Some [[u "a"; u "b"]; [u "x,y" ++ [LF; DQUOTE] ++ u "z"; u "c"]].
Proof. vm_compute. reflexivity. Qed.

Example reader_ex2 :
  Reader.read Reader.FIELD_LIMIT
    (u "a," ++ [DQUOTE] ++ u "b" ++ [DQUOTE] ++ u "c" ++ [CR; LF; CR; LF]
     ++ u "x")
  = Some [[u "a"; u "bc"]; []; [u "x"]]
  /\ Reader.read Reader.FIELD_LIMIT (u "a," ++ [DQUOTE] ++ u "b" ++ [LF])
     = Some [[u "a"; u "b" ++ [LF]]].
Proof. split; vm_compute; reflexivity. Qed.

(** with [csv.field_size_limit(3)]: three characters fit, a fourth does not,
    quoted or not *)
Example reader_ex3 :
  Reader.read 3 (u "abc,d" ++ [CR; LF]) = Some [[u "abc"; u "d"]]
  /\ Reader.read 3 (u "abcd,e" ++ [CR; LF]) = None
  /\ Reader.read 3 ([DQUOTE] ++ u "ab" ++ [DQUOTE; DQUOTE] ++ u "c"
                     ++ [DQUOTE] ++ u ",d" ++ [CR; LF]) = None
  /\ Reader.read 3 ([DQUOTE] ++ u "abc" ++ [DQUOTE] ++ u "d" ++ [CR; LF])
     = None.
Proof. repeat split; vm_compute; reflexivity. Qed.

(** * Properties *)

Unset Implicit Arguments.

(** ** Strings *)

Lemma startswith_spec m s :
  startswith m s = true <-> exists b, s = m ++ b.
Proof.
  revert s. induction m as [|a m IH]; intros s; simpl.
  - split; [intros _; now exists s | reflexivity].
  - destruct s as [|c s]; simpl.
    + split; [discriminate | intros [b Hb]; discriminate].
    + rewrite andb_true_iff, N.eqb_eq, IH. split.
      * intros [-> [b ->]]. now exists b.
      * intros [b Hb]. injection Hb as -> ->. split; [reflexivity | now exists b].
Qed.

Lemma contains_spec m s : contains m s = true <-> occurs_in m s.
Proof.
  unfold occurs_in. induction s as [|c s IH].
  - simpl. rewrite orb_false_r, startswith_spec. split.
    + intros [b Hb]. now exists [], b.
    + intros [a [b Hab]]. destruct a; [now exists b | discriminate].
  - cbn [contains]. rewrite orb_true_iff, startswith_spec, IH. split.
    + intros [[b Hb] | [a [b Hab]]].
      * now exists [], b.
      * exists (c :: a), b. now rewrite Hab.
    + intros [a [b Hab]]. destruct a as [|c' a].
      * left. now exists b.
      * right. injection Hab as _ ->. now exists a, b.
Qed.

Lemma contains_false m s : contains m s = false <-> ~ occurs_in m s.
Proof.
  rewrite <- contains_spec. destruct (contains m s); split; congruence.
Qed.

(** ** C2: marker detection *)

Lemma first_marker_none ms content :
  first_marker ms content = None <->
  forall k, In k ms -> ~ occurs_in k content.
Proof.
  induction ms as [|m ms IH]; simpl.
  - split; [intros _ k [] | reflexivity].
  - destruct (contains m content) eqn:E.
    + split; [discriminate |].
      intros H. apply contains_spec in E. now destruct (H m (or_introl eq_refl)).
    + rewrite IH. apply contains_false in E. split.
      * intros H k [<- | Hk]; auto.
      * intros H k Hk. apply H. now right.
Qed.

Lemma first_marker_first ms content pre k post :
  ms = pre ++ k :: post ->
  occurs_in k content ->
  (forall j, In j pre -> ~ occurs_in j content) ->
  first_marker ms content = Some k.
Proof.
  intros -> Hk. induction pre as [|j pre IH]; intros Hpre; simpl.
  - apply contains_spec in Hk. now rewrite Hk.
  - assert (E : contains j content = false)
      by (apply contains_false, Hpre; now left).
    rewrite E. apply IH. intros j' Hj'. apply Hpre. now right.
Qed.

Lemma first_marker_in ms content m :
  first_marker ms content = Some m -> In m ms.
Proof.
  induction ms as [|k ms IH]; simpl; [discriminate |].
  destruct (contains k content).
  - intros [= ->]. now left.
  - intros H. right. now apply IH.
Qed.

(** C2.  The marker of a finding is the first literal of the list
    [TODO, FIXME, STUB, placeholder, Temporary, hack] that occurs in the
    annotation text as a (case-sensitive) substring, and [NOTE] if none
    occurs; so it is [NOTE] exactly when none of the six occurs. *)
Theorem marker_is_first_literal rt file_path line_no text ctx_snippet :
  let m := marker (make_item rt (file_path, line_no, text) ctx_snippet) in
  MARKERS = [u "TODO"; u "FIXME"; u "STUB"; u "placeholder"; u "Temporary";
             u "hack"]
  /\ m = detect_marker text
  /\ (forall pre k post,
        MARKERS = pre ++ k :: post ->
        occurs_in k text ->
        (forall j, In j pre -> ~ occurs_in j text) ->
        m = k)
  /\ (m = NOTE <-> forall k, In k MARKERS -> ~ occurs_in k text)
  /\ (m = NOTE \/ In m MARKERS).
Proof.
  assert (Hm : marker (make_item rt (file_path, line_no, text) ctx_snippet)
               = detect_marker text).
  { unfold make_item. destruct (guess_props rt file_path text) as [[? ?] ?].
    reflexivity. }
  cbv zeta. rewrite Hm. split; [reflexivity |]. split; [reflexivity |].
  assert (Hne : forall k, In k MARKERS -> is_empty k = false /\ k <> NOTE).
  { intros k Hk. simpl in Hk.
    repeat (destruct Hk as [<- | Hk]; [split; [reflexivity | discriminate] |]).
    destruct Hk. }
  split; [| split].
  - intros pre k post HM Hk Hpre. unfold detect_marker.
    rewrite (first_marker_first _ _ _ _ _ HM Hk Hpre).
    destruct (Hne k) as [-> _]; [| reflexivity].
    rewrite HM. apply in_or_app. right. now left.
  - unfold detect_marker. destruct (first_marker MARKERS text) as [m|] eqn:E.
    + pose proof (first_marker_in _ _ _ E) as Hin.
      destruct (Hne m Hin) as [-> Hn]. split; [intros H; now destruct Hn |].
      intros H. apply first_marker_none in H. congruence.
    + split; [intros _; now apply first_marker_none | reflexivity].
  - unfold detect_marker. destruct (first_marker MARKERS text) as [m|] eqn:E.
    + pose proof (first_marker_in _ _ _ E) as Hin.
      destruct (Hne m Hin) as [-> _]. now right.
    + now left.
Qed.

(** ** C1: the classifier *)

Lemma first_match_spec rt rules ctx :
  (exists pre r post,
      rules = pre ++ r :: post
      /\ search rt (rx_of r) ctx = true
      /\ (forall q, In q pre -> search rt (rx_of q) ctx = false)
      /\ first_match rt rules ctx = props_of r)
  \/ ((forall q, In q rules -> search rt (rx_of q) ctx = false)
      /\ first_match rt rules ctx = DEFAULT_PROPS).
Proof.
  induction rules as [|[[[rx pr] ow] h] rules IH].
  - right. split; [intros q [] | reflexivity].
  - cbn [first_match]. destruct (search rt rx ctx) eqn:E.
    + left. exists [], (rx, pr, ow, h), rules. repeat split; auto.
      intros q [].
    + destruct IH as [(pre & r & post & -> & Hr & Hpre & Hres) | [Hnone Hres]].
      * left. exists ((rx, pr, ow, h) :: pre), r, post. repeat split; auto.
        intros q [<- | Hq]; auto.
      * right. split; auto. intros q [<- | Hq]; auto.
Qed.

Ltac ranges :=
  unfold is_ascii_letter, is_ascii_alnum, is_ascii_digit, is_ascii_upper,
    is_ascii_lower, in_range in *;
  repeat (match goal with
          | |- context [(?a <=? ?b)%N] => destruct (N.leb_spec a b)
          | |- context [(?a <? ?b)%N] => destruct (N.ltb_spec a b)
          | |- context [(?a =? ?b)%N] => destruct (N.eqb_spec a b)
          | H : context [(?a <=? ?b)%N] |- _ => destruct (N.leb_spec a b)
          | H : context [(?a <? ?b)%N] |- _ => destruct (N.ltb_spec a b)
          | H : context [(?a =? ?b)%N] |- _ => destruct (N.eqb_spec a b)
          end; try (exfalso; lia));
  simpl in *; try reflexivity; try discriminate; try lia.

Lemma existsb_ext (A : Type) (f g : A -> bool) l :
  (forall x, f x = g x) -> existsb f l = existsb g l.
Proof.
  intros H. induction l as [|x l IH]; [reflexivity |].
  simpl. now rewrite H, IH.
Qed.

Section CaseInsensitive.

Variable rt : PyRuntime.

Lemma tolower_upper c : tolower rt (ascii_upper c) = tolower rt c.
Proof. unfold tolower, ascii_upper. ranges. Qed.

Lemma is_word_upper c :
  is_word rt (option_map ascii_upper c) = is_word rt c.
Proof. destruct c as [c|]; [| reflexivity]. simpl. unfold isalnum, ascii_upper. ranges. Qed.

Lemma literal_matches_upper p x :
  literal_matches rt p (ascii_upper x) = literal_matches rt p x.
Proof.
  unfold literal_matches. rewrite tolower_upper.
  destruct (is_ascii_letter p) eqn:E; [reflexivity |].
  unfold ascii_upper. ranges.
Qed.

Lemma match_here_upper atoms prev s :
  match_here rt atoms (option_map ascii_upper prev) (map ascii_upper s)
  = match_here rt atoms prev s.
Proof.
  revert prev s. induction atoms as [|[p|] atoms IH]; intros prev s.
  - reflexivity.
  - destruct s as [|x s]; [reflexivity |]. cbn [map match_here].
    rewrite literal_matches_upper.
    change (Some (ascii_upper x)) with (option_map ascii_upper (Some x)).
    now rewrite IH.
  - cbn [match_here]. rewrite IH, is_word_upper.
    replace (hd_error (map ascii_upper s))
      with (option_map ascii_upper (hd_error s)) by now destruct s.
    now rewrite is_word_upper.
Qed.

Lemma search_from_upper rx prev s :
  search_from rt rx (option_map ascii_upper prev) (map ascii_upper s)
  = search_from rt rx prev s.
Proof.
  revert prev. induction s as [|x s IH]; intros prev.
  - cbn [map search_from]. f_equal. apply existsb_ext. intros alt.
    apply (match_here_upper alt prev []).
  - cbn [map search_from]. f_equal.
    + apply existsb_ext. intros alt.
      apply (match_here_upper alt prev (x :: s)).
    + apply (IH (Some x)).
Qed.

Lemma first_match_upper rules ctx :
  first_match rt rules (map ascii_upper ctx) = first_match rt rules ctx.
Proof.
  induction rules as [|[[[rx pr] ow] h] rules IH]; [reflexivity |].
  cbn [first_match]. rewrite IH. unfold search.
  change (@None N) with (option_map ascii_upper None) at 1.
  now rewrite search_from_upper.
Qed.

End CaseInsensitive.

(** C1.  [guess_props] tests the eight rules of [PRIORITY_MAP] in order
    against path, blank, text (letter case ignored) and returns the triple
    of the first rule whose pattern matches; when the first rule matches it
    wins whatever the fifth does; when no rule matches the result is
    (Medium, Engineer, 16). *)
Theorem guess_props_first_match rt path text :
  let ctx := path ++ u " " ++ text in
  length PRIORITY_MAP = 8%nat
  /\ ((exists pre r post,
         PRIORITY_MAP = pre ++ r :: post
         /\ search rt (rx_of r) ctx = true
         /\ (forall q, In q pre -> search rt (rx_of q) ctx = false)
         /\ guess_props rt path text = props_of r)
      \/ ((forall q, In q PRIORITY_MAP -> search rt (rx_of q) ctx = false)
          /\ guess_props rt path text = (u "Medium", u "Engineer", 16%Z)))
  /\ (forall r1 r5,
        nth_error PRIORITY_MAP 0 = Some r1 ->
        nth_error PRIORITY_MAP 4 = Some r5 ->
        search rt (rx_of r1) ctx = true ->
        search rt (rx_of r5) ctx = true ->
        props_of r5 = (u "High", u "Driver Engineer", 36%Z)
        /\ guess_props rt path text = (u "Critical", u "Kernel Engineer", 40%Z))
  /\ guess_props rt (map ascii_upper path) (map ascii_upper text)
     = guess_props rt path text.
Proof.
  cbv zeta. split; [reflexivity |]. split; [| split].
  - apply first_match_spec.
  - intros r1 r5 H1 H5 S1 _.
    injection H1 as <-. injection H5 as <-. split; [reflexivity |].
    unfold guess_props.
    remember (path ++ u " " ++ text) as ctx.
    unfold PRIORITY_MAP in *. cbn [first_match].
    unfold rx_of in S1. cbn [fst] in S1. now rewrite S1.
  - unfold guess_props.
    rewrite <- (first_match_upper rt PRIORITY_MAP (path ++ u " " ++ text)).
    now rewrite !map_app.
Qed.

(** an annotation that matches the first rule (sched) and the fifth
    (driver) *)
Lemma guess_props_first_match_witness :
  guess_props ascii_runtime (u "kernel/sched.c") (u "// TODO: driver hook")
  = (u "Critical", u "Kernel Engineer", 40%Z).
Proof.
  destruct (guess_props_first_match ascii_runtime (u "kernel/sched.c")
              (u "// TODO: driver hook")) as (_ & _ & H & _).
  refine (proj2 (H _ _ eq_refl eq_refl _ _)); vm_compute; reflexivity.
Defined.

(** ** [split], [rstrip] *)

Lemma split_no_sep sep s n : ~ In sep s -> split sep s n = [s].
Proof.
  revert n. induction s as [|c s IH]; intros n H; [reflexivity |].
  destruct n as [|n]; [reflexivity |]. cbn [split].
  destruct (N.eqb_spec c sep) as [-> | _].
  - destruct H. now left.
  - rewrite IH; [reflexivity |]. intros Hin. apply H. now right.
Qed.

Lemma split_at_sep sep p rest k :
  ~ In sep p -> split sep (p ++ sep :: rest) (S k) = p :: split sep rest k.
Proof.
  induction p as [|c p IH]; intros H.
  - cbn [app split]. now rewrite N.eqb_refl.
  - cbn [app split]. destruct (N.eqb_spec c sep) as [-> | _].
    + destruct H. now left.
    + rewrite IH; [reflexivity |]. intros Hin. apply H. now right.
Qed.

Lemma split_zero sep s : split sep s 0 = [s].
Proof. now destruct s. Qed.

Lemma split_three p0 p1 p2 :
  ~ In COLON p0 -> ~ In COLON p1 ->
  split COLON (p0 ++ COLON :: p1 ++ COLON :: p2) 2 = [p0; p1; p2].
Proof.
  intros H0 H1. rewrite split_at_sep by assumption.
  rewrite split_at_sep by assumption. now rewrite split_zero.
Qed.

Lemma split_length sep s n :
  length (split sep s n) = S (Nat.min n (count_occ N.eq_dec s sep)).
Proof.
  revert n. induction s as [|c s IH]; intros n.
  - simpl. now rewrite Nat.min_0_r.
  - destruct n as [|n]; [reflexivity |]. cbn [split count_occ].
    destruct (N.eqb_spec c sep) as [-> | Hne].
    + destruct (N.eq_dec sep sep); [| congruence]. cbn [length]. now rewrite IH.
    + destruct (N.eq_dec c sep); [congruence |].
      specialize (IH (S n)). destruct (split sep s (S n)); simpl in *; lia.
Qed.

Lemma first_occurrence (sep : N) (s : str) :
  In sep s -> exists a b, s = a ++ sep :: b /\ ~ In sep a.
Proof.
  induction s as [|c s IH]; [intros [] |]. intros H.
  destruct (N.eq_dec c sep) as [-> | Hne].
  - exists [], s. split; [reflexivity | intros []].
  - destruct H as [-> | H]; [congruence |].
    destruct (IH H) as (a & b & -> & Ha). exists (c :: a), b.
    split; [reflexivity |]. intros [E | Hin]; auto.
Qed.

Lemma two_colons ln :
  (2 <= colons ln)%nat ->
  exists p0 p1 p2,
    ln = p0 ++ COLON :: p1 ++ COLON :: p2
    /\ ~ In COLON p0 /\ ~ In COLON p1.
Proof.
  unfold colons. intros H.
  destruct (first_occurrence COLON ln) as (p0 & r & -> & H0).
  { apply (count_occ_In N.eq_dec). lia. }
  rewrite count_occ_app in H. cbn [count_occ] in H.
  destruct (N.eq_dec COLON COLON); [| congruence].
  rewrite (proj1 (count_occ_not_In N.eq_dec p0 COLON) H0) in H.
  destruct (first_occurrence COLON r) as (p1 & p2 & -> & H1).
  { apply (count_occ_In N.eq_dec). lia. }
  now exists p0, p1, p2.
Qed.

Lemma rstrip_by_all p t : Forall (fun c => p c = true) t -> rstrip_by p t = [].
Proof.
  induction 1 as [|c t Hc _ IH]; [reflexivity |].
  cbn [rstrip_by]. now rewrite IH, Hc.
Qed.

Lemma rstrip_by_app_drop p s t :
  Forall (fun c => p c = true) t -> rstrip_by p (s ++ t) = rstrip_by p s.
Proof.
  intros H. induction s as [|c s IH].
  - simpl. now apply rstrip_by_all.
  - cbn [app rstrip_by]. now rewrite IH.
Qed.

Lemma rstrip_by_snoc_keep p s c :
  p c = false -> rstrip_by p (s ++ [c]) = s ++ [c].
Proof.
  intros H. induction s as [|a s IH].
  - simpl. now rewrite H.
  - cbn [app rstrip_by]. rewrite IH. now destruct (s ++ [c]) eqn:E; [destruct s |].
Qed.

(** what [rstrip] removes is a suffix made of the stripped characters *)
Lemma rstrip_by_suffix p s :
  exists t, s = rstrip_by p s ++ t /\ Forall (fun c => p c = true) t.
Proof.
  induction s as [|c s (t & Hs & Ht)].
  - now exists [].
  - cbn [rstrip_by]. destruct (rstrip_by p s) as [|a r] eqn:E.
    + destruct (p c) eqn:Hc.
      * exists (c :: t). simpl in Hs. subst s. split; [reflexivity |].
        now constructor.
      * exists t. simpl in *. now subst s.
    + exists t. split; [| assumption]. simpl. now rewrite Hs at 1.
Qed.

Lemma lstrip_by_head p s :
  match lstrip_by p s with [] => True | x :: _ => p x = false end.
Proof.
  induction s as [|x s IH]; [exact I |]. cbn [lstrip_by].
  destruct (p x) eqn:Px; [exact IH | exact Px].
Qed.

Lemma colons_rstrip_LF ln : colons (rstrip_by is_LF ln) = colons ln.
Proof.
  destruct (rstrip_by_suffix is_LF ln) as (t & Hs & Ht).
  unfold colons. rewrite Hs at 2. rewrite count_occ_app.
  assert (E : count_occ N.eq_dec t COLON = 0%nat).
  { apply count_occ_not_In. intros Hin.
    rewrite Forall_forall in Ht. specialize (Ht _ Hin). discriminate. }
  lia.
Qed.

(** ** C3: the line parser *)

Lemma parse_line_none rt ln :
  parse_line rt ln = None <-> (colons ln < 2)%nat.
Proof.
  unfold parse_line, colons. pose proof (split_length COLON ln 2) as L.
  destruct (Nat.ltb_spec (length (split COLON ln 2)) 3); split;
    intros; try reflexivity; try discriminate; lia.
Qed.

Lemma parse_line_three rt p0 p1 p2 :
  ~ In COLON p0 -> ~ In COLON p1 ->
  parse_line rt (p0 ++ COLON :: p1 ++ COLON :: p2)
  = Some (strip rt p0,
          match py_int rt (strip rt p1) with Some v => v | None => 0%Z end,
          rstrip rt p2).
Proof.
  intros H0 H1. unfold parse_line. rewrite split_three by assumption.
  cbn [length Nat.ltb Nat.leb nth]. now destruct p2.
Qed.

Lemma rstrip_by_app_keep p a c b :
  p c = false -> rstrip_by p (a ++ c :: b) = a ++ c :: rstrip_by p b.
Proof.
  intros H. induction a as [|x a IH].
  - cbn [app rstrip_by]. destruct (rstrip_by p b); [now rewrite H | reflexivity].
  - cbn [app rstrip_by]. rewrite IH. now destruct a.
Qed.

Lemma rstrip_by_twice p q s :
  (forall c, q c = true -> p c = true) ->
  rstrip_by p (rstrip_by q s) = rstrip_by p s.
Proof.
  intros H. destruct (rstrip_by_suffix q s) as (t & Hs & Ht).
  rewrite Hs at 2. symmetry. apply rstrip_by_app_drop.
  eapply Forall_impl; [| exact Ht]. exact H.
Qed.

Lemma isspace_LF rt c : is_LF c = true -> isspace rt c = true.
Proof. unfold is_LF. intros H. apply N.eqb_eq in H. now subst c. Qed.

Lemma read_line_three rt w p0 p1 p2 t :
  ~ In COLON p0 -> ~ In COLON p1 -> t = [] \/ t = [LF] ->
  let line_no :=
    match py_int rt (strip rt p1) with Some v => v | None => 0%Z end in
  read_line rt w ((p0 ++ COLON :: p1 ++ COLON :: p2) ++ t)
  = match context_of w (strip rt p0) line_no with
    | Ok ctx_snippet =>
        Found (make_item rt (strip rt p0, line_no, rstrip rt p2) ctx_snippet)
    | Raises e => Abort e
    end.
Proof.
  intros H0 H1 Ht. cbv zeta. unfold read_line.
  rewrite rstrip_by_app_drop
    by (destruct Ht as [-> | ->]; repeat constructor).
  rewrite (rstrip_by_app_keep is_LF p0 COLON) by reflexivity.
  rewrite (rstrip_by_app_keep is_LF p1 COLON) by reflexivity.
  replace (is_empty (p0 ++ COLON :: p1 ++ COLON :: rstrip_by is_LF p2))
    with false by now destruct p0.
  rewrite parse_line_three by assumption. cbn [fst snd].
  unfold rstrip. now rewrite (rstrip_by_twice _ _ _ (isspace_LF rt)).
Qed.

(** C3.  A report line is cut at its first two colons into path, line
    number and remainder (never more than three parts); with fewer than two
    colons there is no finding; a line number that [int] rejects becomes 0
    and the line is kept: its turn of the loop goes on to look the path up
    and, unless that lookup raises, appends the finding made of the three
    parts; a line that is empty once its newline is removed is skipped. *)
Theorem parse_line_contract rt w :
  (forall ln,
      length (split COLON ln 2) = S (Nat.min 2 (colons ln))
      /\ ((colons ln < 2)%nat \/
          exists p0 p1 p2,
            ln = p0 ++ COLON :: p1 ++ COLON :: p2
            /\ ~ In COLON p0 /\ ~ In COLON p1))
  /\ (forall ln,
        (colons ln < 2)%nat ->
        parse_line rt ln = None /\ read_line rt w ln = Skip)
  /\ (forall p0 p1 p2,
        ~ In COLON p0 -> ~ In COLON p1 ->
        let ln := p0 ++ COLON :: p1 ++ COLON :: p2 in
        let line_no :=
          match py_int rt (strip rt p1) with Some v => v | None => 0%Z end in
        split COLON ln 2 = [p0; p1; p2]
        /\ parse_line rt ln = Some (strip rt p0, line_no, rstrip rt p2)
        /\ (py_int rt (strip rt p1) = None -> line_no = 0%Z)
        /\ (forall t, t = [] \/ t = [LF] ->
            read_line rt w (ln ++ t)
            = match context_of w (strip rt p0) line_no with
              | Ok ctx_snippet =>
                  Found (make_item rt (strip rt p0, line_no, rstrip rt p2)
                           ctx_snippet)
              | Raises e => Abort e
              end))
  /\ (forall ln,
        rstrip_by is_LF ln = [] -> read_line rt w ln = Skip).
Proof.
  split; [| split; [| split]].
  - intros ln. split; [apply split_length |].
    destruct (Nat.lt_ge_cases (colons ln) 2) as [H | H]; [now left | right].
    now apply two_colons.
  - intros ln H. split; [now apply parse_line_none |].
    unfold read_line.
    destruct (is_empty (rstrip_by is_LF ln)); [reflexivity |].
    assert (E : parse_line rt (rstrip_by is_LF ln) = None)
      by (apply parse_line_none; now rewrite colons_rstrip_LF).
    now rewrite E.
  - intros p0 p1 p2 H0 H1. cbv zeta.
    split; [now apply split_three |].
    split; [now apply parse_line_three |].
    split; [now intros -> |].
    intros t Ht. now apply (read_line_three rt w).
  - intros ln E. unfold read_line. now rewrite E.
Qed.

(** a line number that [int] rejects: the finding is kept, with line 0 *)
Lemma parse_line_contract_witness :
  parse_line ascii_runtime (u "kernel/sched.c:12a: // TODO: tick")
  = Some (u "kernel/sched.c", 0%Z, u " // TODO: tick").
Proof.
  destruct (parse_line_contract ascii_runtime
              {| ROOT := []; input := None; source := fun _ => None;
                 write_error := fun _ => None |}) as (_ & _ & H & _).
  destruct (H (u "kernel/sched.c") (u "12a") (u " // TODO: tick"))
    as (_ & E & _).
  - vm_compute. intuition discriminate.
  - vm_compute. intuition discriminate.
  - exact E.
Defined.

(** ** C8: the line number of a finding *)

Lemma scan_digits_all ds acc cnt :
  Forall (fun c => is_ascii_digit c = true) ds ->
  scan_digits acc cnt ds
  = Some (fold_left (fun a c => (10 * a + digit_value c)%Z) ds acc,
          (cnt + N.of_nat (length ds))%N, []).
Proof.
  intros H. revert acc cnt. induction H as [|c ds Hc _ IH]; intros acc cnt.
  - simpl. now rewrite N.add_0_r.
  - cbn [scan_digits]. rewrite Hc, IH. cbn [fold_left length].
    do 3 f_equal. lia.
Qed.

Lemma digit_value_nonneg c : is_ascii_digit c = true -> (0 <= digit_value c)%Z.
Proof.
  unfold is_ascii_digit, in_range, digit_value. intros H.
  apply andb_true_iff in H as [H _]. apply N.leb_le in H. lia.
Qed.

Lemma decimal_fold_nonneg ds acc :
  (0 <= acc)%Z ->
  Forall (fun c => is_ascii_digit c = true) ds ->
  (0 <= fold_left (fun a c => (10 * a + digit_value c)%Z) ds acc)%Z.
Proof.
  intros Hacc H. revert acc Hacc.
  induction H as [|c ds Hc _ IH]; intros acc Hacc; [assumption |].
  cbn [fold_left]. apply IH. pose proof (digit_value_nonneg c Hc). lia.
Qed.

Lemma decimal_value_nonneg ds :
  Forall (fun c => is_ascii_digit c = true) ds -> (0 <= decimal_value ds)%Z.
Proof. apply decimal_fold_nonneg. lia. Qed.

(** [int] reads a string of ASCII digits as the number it writes *)
Lemma py_int_digits rt ds :
  ds <> [] ->
  Forall (fun c => is_ascii_digit c = true) ds ->
  (length ds <= 640)%nat ->
  py_int rt ds = Some (decimal_value ds).
Proof.
  intros Hne H Hlen.
  assert (Hmap : map (to_ascii_decimal rt) ds = ds).
  { clear Hne Hlen. induction H as [|c ds Hc _ IH]; [reflexivity |].
    cbn [map]. rewrite IH. f_equal. unfold to_ascii_decimal.
    unfold is_ascii_digit, in_range in Hc.
    apply andb_true_iff in Hc as [_ Hc]. apply N.leb_le in Hc.
    destruct (N.ltb_spec c 127); [reflexivity | lia]. }
  unfold py_int. rewrite Hmap.
  destruct ds as [|c ds]; [congruence |]. inversion H as [|? ? Hc Hds]; subst.
  assert (R : (48 <= c <= 57)%N).
  { unfold is_ascii_digit, in_range in Hc.
    apply andb_true_iff in Hc as [A B]. apply N.leb_le in A.
    apply N.leb_le in B. lia. }
  assert (Hsp : c_isspace c = false).
  { unfold c_isspace, in_range.
    destruct (N.leb_spec c 13); [lia |]. rewrite andb_false_r.
    destruct (N.eqb_spec c 32); [lia | reflexivity]. }
  cbn [lstrip_by]. rewrite Hsp.
  destruct (N.eqb_spec c 43); [lia |]. destruct (N.eqb_spec c 45); [lia |].
  unfold parse_unsigned. rewrite Hc, (scan_digits_all _ _ _ Hds).
  cbn [lstrip_by is_empty andb]. unfold digits_allowed.
  cbn [length] in Hlen.
  destruct (N.ltb_spec 640 (1 + N.of_nat (length ds))); [lia |].
  reflexivity.
Qed.

Lemma scan_digits_nonneg n :
  forall s acc cnt v cnt' rest,
    (length s <= n)%nat -> (0 <= acc)%Z ->
    scan_digits acc cnt s = Some (v, cnt', rest) -> (0 <= v)%Z.
Proof.
  induction n as [|n IH]; intros s acc cnt v cnt' rest Hlen Hacc H.
  - destruct s; [| cbn [length] in Hlen; lia].
    cbn [scan_digits] in H. now inversion H; subst.
  - destruct s as [|c r]; [cbn [scan_digits] in H; now inversion H; subst |].
    cbn [scan_digits] in H. cbn [length] in Hlen.
    destruct (is_ascii_digit c) eqn:Dc.
    + pose proof (digit_value_nonneg c Dc).
      refine (IH r _ _ _ _ _ _ _ H); lia.
    + destruct (c =? 95)%N; [| now inversion H; subst].
      destruct r as [|d r']; [discriminate |].
      destruct (is_ascii_digit d) eqn:Dd; [| discriminate].
      pose proof (digit_value_nonneg d Dd). cbn [length] in Hlen.
      refine (IH r' _ _ _ _ _ _ _ H); lia.
Qed.

(** without a sign [int] reads no negative number *)
Lemma parse_unsigned_nonneg rt s v :
  parse_unsigned rt s = Some v -> (0 <= v)%Z.
Proof.
  unfold parse_unsigned. destruct s as [|c r]; [discriminate |].
  destruct (is_ascii_digit c) eqn:Dc; [| discriminate].
  destruct (scan_digits (digit_value c) 1 r) as [[[x cnt] rest]|] eqn:E;
    [| discriminate].
  destruct (is_empty (lstrip_by c_isspace rest) && digits_allowed rt cnt);
    [| discriminate].
  intros [= <-].
  apply (scan_digits_nonneg (length r) r _ _ _ _ _ (le_n _)
           (digit_value_nonneg c Dc) E).
Qed.

Lemma py_int_negative rt s v :
  py_int rt s = Some v -> (v < 0)%Z ->
  exists r, lstrip_by c_isspace (map (to_ascii_decimal rt) s) = 45%N :: r.
Proof.
  unfold py_int.
  destruct (lstrip_by c_isspace (map (to_ascii_decimal rt) s)) as [|c r];
    [discriminate |].
  destruct (N.eqb_spec c 43).
  - intros H Hv. apply parse_unsigned_nonneg in H. lia.
  - destruct (N.eqb_spec c 45) as [-> | _].
    + intros _ _. now exists r.
    + intros H Hv. apply parse_unsigned_nonneg in H. lia.
Qed.

Lemma py_int_minus rt r v :
  py_int rt (45%N :: r) = Some v -> (v <= 0)%Z.
Proof.
  unfold py_int. cbn [map].
  replace (to_ascii_decimal rt 45) with 45%N by reflexivity.
  cbn [lstrip_by]. replace (c_isspace 45) with false by reflexivity.
  replace (45 =? 43)%N with false by reflexivity.
  replace (45 =? 45)%N with true by reflexivity.
  destruct (parse_unsigned rt (map (to_ascii_decimal rt) r)) as [x|] eqn:E;
    [| discriminate].
  intros [= <-]. apply parse_unsigned_nonneg in E. lia.
Qed.

Lemma strip_head rt s :
  match strip rt s with [] => True | c :: _ => isspace rt c = false end.
Proof.
  unfold strip, strip_by. pose proof (lstrip_by_head (isspace rt) s) as H.
  destruct (rstrip_by_suffix (isspace rt) (lstrip_by (isspace rt) s))
    as (t & E & _).
  destruct (rstrip_by (isspace rt) (lstrip_by (isspace rt) s)) as [|c r];
    [exact I |].
  rewrite E in H. exact H.
Qed.

Lemma to_ascii_decimal_minus rt c : to_ascii_decimal rt c = 45%N -> c = 45%N.
Proof.
  unfold to_ascii_decimal. destruct (N.ltb_spec c 127); [auto |].
  destruct (isspace rt c); [discriminate |].
  destruct (todecimal rt c); [lia | discriminate].
Qed.

Lemma to_ascii_decimal_space rt c :
  isspace rt c = false -> c_isspace (to_ascii_decimal rt c) = false.
Proof.
  intros H. unfold to_ascii_decimal. destruct (N.ltb_spec c 127).
  - unfold isspace in H. destruct (N.ltb_spec c 128); [| lia].
    apply orb_false_iff in H as [Ha Hb]. unfold c_isspace. rewrite Ha.
    destruct (N.eqb_spec c 32) as [-> | _]; [discriminate Hb | reflexivity].
  - rewrite H. destruct (todecimal rt c) as [d|]; [| reflexivity].
    unfold c_isspace, in_range.
    destruct (N.leb_spec (48 + d) 13); [lia |].
    destruct (N.eqb_spec (48 + d) 32); [lia |].
    now rewrite andb_false_r.
Qed.

(** a stripped field that [int] reads as a negative number starts with the
    minus sign *)
Lemma py_int_negative_field rt s v :
  py_int rt (strip rt s) = Some v -> (v < 0)%Z ->
  exists r, strip rt s = 45%N :: r.
Proof.
  intros H Hv. destruct (py_int_negative rt _ _ H Hv) as (r & E).
  pose proof (strip_head rt s) as Hh.
  destruct (strip rt s) as [|c t]; [discriminate E |].
  cbn [map lstrip_by] in E. rewrite (to_ascii_decimal_space rt c Hh) in E.
  injection E as Ec _. apply to_ascii_decimal_minus in Ec. subst c.
  now exists t.
Qed.

(** C8 (amended).  The line number of a finding is what [int] reads from
    the stripped line-number field of the report line, and 0 when [int]
    rejects that field.  It is not negative unless the field starts with a
    minus sign, and then it is not positive; it is 0 exactly when the field
    is rejected or denotes zero; for a field of decimal digits it is the
    number they write. *)
Theorem source_line_is_int_or_zero rt ln f n c :
  parse_line rt ln = Some (f, n, c) ->
  let field := line_no_field rt ln in
  ((0 <= n)%Z \/ exists r, field = 45%N :: r)
  /\ (forall r, field = 45%N :: r -> (n <= 0)%Z)
  /\ (py_int rt field = None -> n = 0%Z)
  /\ (n = 0%Z <-> py_int rt field = None \/ py_int rt field = Some 0%Z)
  /\ (forall v, py_int rt field = Some v -> n = v)
  /\ (field <> [] ->
      Forall (fun d => is_ascii_digit d = true) field ->
      (length field <= 640)%nat ->
      n = decimal_value field).
Proof.
  unfold parse_line. cbv zeta. fold (line_no_field rt ln).
  destruct (length (split COLON ln 2) <? 3)%nat; [discriminate |].
  intros [= _ <- _].
  split; [| split; [| split; [| split; [| split]]]].
  - destruct (py_int rt (line_no_field rt ln)) as [v|] eqn:E; [| left; lia].
    destruct (Z.lt_ge_cases v 0) as [Hv | Hv]; [right | left; lia].
    unfold line_no_field in *. now apply (py_int_negative_field rt _ v).
  - intros r E.
    destruct (py_int rt (line_no_field rt ln)) as [v|] eqn:P; [| lia].
    rewrite E in P. now apply (py_int_minus rt r).
  - now intros ->.
  - destruct (py_int rt (line_no_field rt ln)) as [v|]; split.
    + intros ->. now right.
    + intros [H | [= ->]]; [discriminate | reflexivity].
    + intros _. now left.
    + reflexivity.
  - now intros v ->.
  - intros Hne Hd Hlen. now rewrite (py_int_digits rt _ Hne Hd Hlen).
Qed.

(** a field with a plus sign and an underscore: [int] reads 1000 *)
Lemma source_line_is_int_or_zero_witness :
  parse_line ascii_runtime (u "mm/page.c:+1_000: // FIXME")
  = Some (u "mm/page.c", 1000%Z, u " // FIXME")
  /\ ((0 <= 1000)%Z
      \/ exists r,
           line_no_field ascii_runtime (u "mm/page.c:+1_000: // FIXME")
           = 45%N :: r).
Proof.
  assert (E : parse_line ascii_runtime (u "mm/page.c:+1_000: // FIXME")
              = Some (u "mm/page.c", 1000%Z, u " // FIXME"))
    by (vm_compute; reflexivity).
  split; [exact E |].
  exact (proj1 (source_line_is_int_or_zero ascii_runtime _ _ _ _ E)).
Defined.

(** C8 as stated fails: a signed field gives a negative line number, and a
    field that denotes zero gives 0 although [int] accepts it. *)
Lemma source_line_counterexample :
  parse_line ascii_runtime (u "a.c:-5:x") = Some (u "a.c", (-5)%Z, u "x")
  /\ parse_line ascii_runtime (u "a.c:0:x") = Some (u "a.c", 0%Z, u "x")
  /\ py_int ascii_runtime (line_no_field ascii_runtime (u "a.c:0:x")) = Some 0%Z
  /\ ~ (forall rt ln f n c,
          parse_line rt ln = Some (f, n, c) ->
          (0 <= n)%Z
          /\ (n = 0%Z <-> py_int rt (line_no_field rt ln) = None)).
Proof.
  repeat split; try (vm_compute; reflexivity).
  intros H.
  destruct (H ascii_runtime (u "a.c:-5:x") (u "a.c") (-5)%Z (u "x")) as [H0 _].
  - vm_compute. reflexivity.
  - lia.
Qed.

(** ** C10: a line with nothing after the second colon *)

Lemma make_item_eq rt f n c ctx_snippet :
  make_item rt (f, n, c) ctx_snippet
  = {| file := f;
       line := n;
       marker := detect_marker c;
       content := strip rt c;
       context := ctx_snippet;
       priority := fst (fst (guess_props rt f c));
       owner := snd (fst (guess_props rt f c));
       estimate_hours := snd (guess_props rt f c);
       labels := join [SEMICOLON]
                   [lower rt (fst (fst (guess_props rt f c)));
                    lower rt (detect_marker c)] |}.
Proof.
  unfold make_item. now destruct (guess_props rt f c) as [[? ?] ?].
Qed.

(** C10.  A line with two colons and nothing after the second one (with or
    without its newline) is not dropped: the parser returns its path and
    line number with an empty text, and the turn of the loop goes on to look
    the path up; unless that lookup raises (which ends the run), the finding
    is appended.  The finding has an empty text, the marker NOTE, the safe
    title todo and the document title TODO in file:line. *)
Theorem empty_text_gives_finding rt w p0 p1 t :
  ~ In COLON p0 -> ~ In COLON p1 -> t = [] \/ t = [LF] ->
  let ln := p0 ++ COLON :: p1 ++ [COLON] in
  let file_path := strip rt p0 in
  exists line_no,
    parse_line rt ln = Some (file_path, line_no, [])
    /\ read_line rt w (ln ++ t) <> Skip
    /\ (forall ctx_snippet,
          context_of w file_path line_no = Ok ctx_snippet ->
          read_line rt w (ln ++ t)
          = Found (make_item rt (file_path, line_no, []) ctx_snippet)
          /\ read_items rt w [ln ++ t]
             = Ok [make_item rt (file_path, line_no, []) ctx_snippet])
    /\ (forall e,
          context_of w file_path line_no = Raises e ->
          read_line rt w (ln ++ t) = Abort e)
    /\ (forall ctx_snippet,
          let it := make_item rt (file_path, line_no, []) ctx_snippet in
          file it = file_path
          /\ line it = line_no
          /\ content it = []
          /\ marker it = u "NOTE"
          /\ context it = ctx_snippet
          /\ doc_safe rt it = u "todo"
          /\ doc_title it
             = u "TODO in " ++ file_path ++ u ":" ++ str_of_int line_no).
Proof.
  intros H0 H1 Ht. cbv zeta.
  pose proof (read_line_three rt w p0 p1 [] t H0 H1 Ht) as E. cbv zeta in E.
  pose proof (parse_line_three rt p0 p1 [] H0 H1) as P.
  change (rstrip rt []) with (@nil N) in E, P.
  exists (match py_int rt (strip rt p1) with Some v => v | None => 0%Z end).
  split; [exact P |]. rewrite E.
  split; [now destruct (context_of w _ _) |].
  split; [| split].
  - intros ctx_snippet C. cbn [read_items]. rewrite E, C. now split.
  - now intros e ->.
  - intros ctx_snippet. rewrite make_item_eq.
    cbn [file content marker line context]. repeat split.
Qed.

Lemma empty_text_gives_finding_witness :
  let w := {| ROOT := u "/repo"; input := None; source := fun _ => None;
              write_error := fun _ => None |} in
  exists it,
    read_line ascii_runtime w (u "a.c:1:") = Found it
    /\ file it = u "a.c" /\ line it = 1%Z
    /\ content it = [] /\ marker it = u "NOTE"
    /\ doc_title it = u "TODO in a.c:1".
Proof.
  intros w.
  destruct (empty_text_gives_finding ascii_runtime w (u "a.c") (u "1") [])
    as (n & P & _ & F & _ & H).
  - vm_compute. intuition discriminate.
  - vm_compute. intuition discriminate.
  - now left.
  - assert (N1 : n = 1%Z) by (vm_compute in P; congruence). subst n.
    destruct (F (u "(file not found)") eq_refl) as [E _].
    destruct (H (u "(file not found)")) as (Hf & Hl & Hc & Hm & _ & _ & Ht).
    eexists. split; [exact E |].
    split; [exact Hf |]. split; [exact Hl |]. split; [exact Hc |].
    split; [exact Hm | exact Ht].
Defined.

(** ** C9: no report, no output *)

(** C9.  When the report does not exist, [main] prints that it was not
    found and returns: it raises nothing, creates no directory and writes no
    file. *)
Theorem missing_input_no_output rt w :
  input w = None ->
  main rt w = ([Print (u "Input file not found: " ++ INPUT w ++ [LF])], Returned)
  /\ existsb is_output (fst (main rt w)) = false
  /\ snd (main rt w) = Returned.
Proof.
  intros H. unfold main. rewrite H. repeat split.
Qed.

Lemma missing_input_no_output_witness :
  main ascii_runtime
    {| ROOT := u "/repo"; input := None; source := fun _ => None;
       write_error := fun _ => None |}
  = ([Print (u "Input file not found: /repo/docs/TODO_GREP_OUTPUT.txt" ++ [LF])],
     Returned).
Proof.
  exact (proj1 (missing_input_no_output ascii_runtime
                  {| ROOT := u "/repo"; input := None; source := fun _ => None;
                     write_error := fun _ => None |} eq_refl)).
Defined.

(** with a report, the same run creates the directory and writes the table,
    a document and the index *)
Example main_ex1 :
  let w := {| ROOT := u "/repo";
              input := Some (ReadOk (u "kernel/sched.c:120:    // TODO: implement real scheduler" ++ [LF]));
              source := fun _ => None;
              write_error := fun _ => None |} in
  map (fun e => match e with
                | Print _ => u "print"
                | Mkdir p => u "mkdir " ++ p
                | WriteText p _ => u "write " ++ p
                end) (fst (main ascii_runtime w))
  = [u "mkdir /repo/docs/issues";
     u "write /repo/docs/issues/todos.csv";
     u "write /repo/docs/issues/0001-TODO_implement_real_scheduler.md";
     u "write /repo/docs/issues/README.md";
     u "print"]
  /\ nth_error (fst (main ascii_runtime w)) 1
     = Some (WriteText (u "/repo/docs/issues/todos.csv")
               (u "id,file,line,marker,content,context,priority,owner,estimate_hours,labels"
                ++ [CR; LF]
                ++ u "1,kernel/sched.c,120,TODO,// TODO: implement real scheduler,(file not found),Critical,Kernel Engineer,40,critical;todo"
                ++ [CR; LF])).
Proof. split; vm_compute; reflexivity. Qed.

(** ** Decimal text *)

Lemma digits_of_uint_digits d :
  Forall (fun c => is_ascii_digit c = true) (digits_of_uint d).
Proof. induction d; cbn [digits_of_uint]; constructor; auto. Qed.

Lemma decimal_of_uint_acc d acc :
  fold_left (fun a c => (10 * a + digit_value c)%Z) (digits_of_uint d) (Zpos acc)
  = Zpos (Pos.of_uint_acc d acc).
Proof.
  revert acc. induction d; intros acc; cbn [digits_of_uint fold_left Pos.of_uint_acc];
    [reflexivity | rewrite <- IHd; f_equal; unfold digit_value; lia ..].
Qed.

Lemma decimal_of_uint d :
  decimal_value (digits_of_uint d) = Z.of_N (N.of_uint d).
Proof.
  unfold decimal_value, N.of_uint.
  induction d; cbn [digits_of_uint fold_left Pos.of_uint];
    [reflexivity | exact IHd | apply (decimal_of_uint_acc d) ..].
Qed.

Lemma decimal_value_str_of_N n : decimal_value (str_of_N n) = Z.of_N n.
Proof. unfold str_of_N. now rewrite decimal_of_uint, Unsigned.of_to. Qed.

Lemma str_of_N_nonempty n : str_of_N n <> [].
Proof.
  unfold str_of_N. destruct n as [|p]; [discriminate |].
  cbn [N.to_uint]. pose proof (DecimalPos.Unsigned.to_uint_nonnil p) as H.
  destruct (Pos.to_uint p); [congruence | discriminate ..].
Qed.

Lemma decimal_value_zfill k s : decimal_value (zfill k s) = decimal_value s.
Proof.
  unfold zfill, decimal_value. rewrite fold_left_app.
  replace (fold_left (fun acc c => (10 * acc + digit_value c)%Z)
             (repeat 48%N (k - length s)) 0%Z) with 0%Z; [reflexivity |].
  induction (k - length s)%nat as [|m IH]; [reflexivity | exact IH].
Qed.

Lemma digit_not_sign (s : str) :
  Forall (fun c => is_ascii_digit c = true) s -> ~ In 45%N s.
Proof.
  intros H Hin. rewrite Forall_forall in H. specialize (H _ Hin). discriminate.
Qed.

Lemma zfill_digits k s :
  Forall (fun c => is_ascii_digit c = true) s ->
  Forall (fun c => is_ascii_digit c = true) (zfill k s).
Proof.
  intros H. unfold zfill. apply Forall_app. split; [| exact H].
  induction (k - length s)%nat; constructor; auto.
Qed.

(** ** C5: identifiers *)

Lemma enumerate_nth_error (A : Type) (l : list A) start k :
  nth_error (enumerate l start) k
  = option_map (fun x => ((start + Z.of_nat k)%Z, x)) (nth_error l k).
Proof.
  revert start k. induction l as [|x l IH]; intros start k.
  - now destruct k.
  - destruct k as [|k]; cbn [enumerate nth_error].
    + cbn [option_map]. now rewrite Z.add_0_r.
    + rewrite IH. destruct (nth_error l k); [| reflexivity].
      cbn [option_map]. do 2 f_equal. lia.
Qed.

Lemma enumerate_fst (A : Type) (l : list A) start :
  map fst (enumerate l start)
  = map (fun k => (start + Z.of_nat k)%Z) (seq 0 (length l)).
Proof.
  revert start. induction l as [|x l IH]; intros start; [reflexivity |].
  cbn [enumerate map length seq fst]. rewrite Z.add_0_r. f_equal.
  rewrite IH, <- seq_shift, map_map. apply map_ext. intros k. lia.
Qed.

Lemma enumerate_length (A : Type) (l : list A) start :
  length (enumerate l start) = length l.
Proof.
  revert start. induction l as [|x l IH]; intros start; [reflexivity |].
  cbn [enumerate length]. now rewrite IH.
Qed.

Lemma ids_shift n :
  map Z.of_nat (seq 1 n) = map (fun k => (1 + Z.of_nat k)%Z) (seq 0 n).
Proof. rewrite <- seq_shift, map_map. apply map_ext. intros k. lia. Qed.

Lemma enumerate_combine (A : Type) (l : list A) start :
  enumerate l start
  = combine (map (fun k => (start + Z.of_nat k)%Z) (seq 0 (length l))) l.
Proof.
  revert start. induction l as [|x l IH]; intros start; [reflexivity |].
  cbn [enumerate length seq map combine]. rewrite Z.add_0_r. f_equal.
  rewrite IH, <- seq_shift, map_map. f_equal. apply map_ext. intros k. lia.
Qed.

Lemma enumerate_ids (A : Type) (l : list A) :
  enumerate l 1 = combine (map Z.of_nat (seq 1 (length l))) l.
Proof. now rewrite enumerate_combine, ids_shift. Qed.

Lemma read_line_skip rt w ln :
  read_line rt w ln = Skip <-> well_formed rt ln = false.
Proof.
  unfold read_line, well_formed.
  destruct (rstrip_by is_LF ln) as [|c l]; [now split |].
  cbn [is_empty].
  destruct (parse_line rt (c :: l)) as [parsed|]; [| now split].
  destruct (context_of w (fst (fst parsed)) (snd (fst parsed)));
    split; discriminate.
Qed.

(** a loop that ends normally: the findings are those of the lines, in
    order, and no lookup raised *)
Lemma read_items_found rt w lines items :
  read_items rt w lines = Ok items ->
  items = flat_map (fun ln => found (read_line rt w ln)) lines
  /\ length items = length (filter (well_formed rt) lines)
  /\ Forall (fun ln => forall e, read_line rt w ln <> Abort e) lines.
Proof.
  revert items. induction lines as [|ln lines IH]; intros items H.
  - cbn [read_items] in H. injection H as <-. repeat split. constructor.
  - cbn [read_items] in H. cbn [flat_map filter].
    pose proof (read_line_skip rt w ln) as S.
    destruct (read_line rt w ln) as [|it|e] eqn:E.
    + destruct (IH _ H) as (-> & L & F).
      rewrite (proj1 S eq_refl).
      split; [reflexivity |]. split; [exact L |].
      constructor; [intros e; rewrite E; discriminate | exact F].
    + destruct (read_items rt w lines) as [l|e]; [| discriminate H].
      cbn [result_map] in H. injection H as <-.
      destruct (IH l eq_refl) as (-> & L & F).
      destruct (well_formed rt ln);
        [| now assert (Found it = Skip) by now apply S].
      split; [reflexivity |]. split; [cbn [found app length]; now rewrite L |].
      constructor; [intros e; rewrite E; discriminate | exact F].
    + discriminate H.
Qed.

Lemma decimal_value_str_of_int z :
  (0 <= z)%Z -> decimal_value (str_of_int z) = z.
Proof.
  intros H. destruct z as [|q|q]; [reflexivity | | lia].
  cbn [str_of_int]. rewrite decimal_value_str_of_N. cbn [Z.to_N]. lia.
Qed.

Lemma format_04d_value z :
  (0 <= z)%Z ->
  decimal_value (format_04d z) = z
  /\ Forall (fun c => is_ascii_digit c = true) (format_04d z)
  /\ (4 <= length (format_04d z))%nat.
Proof.
  intros H.
  assert (E : format_04d z = zfill 4 (str_of_N (Z.to_N z)))
    by (destruct z as [|q|q]; [reflexivity | reflexivity | lia]).
  rewrite E. split; [| split].
  - rewrite decimal_value_zfill, decimal_value_str_of_N. lia.
  - apply zfill_digits, digits_of_uint_digits.
  - unfold zfill. rewrite length_app, repeat_length. lia.
Qed.

(** C5.  When the loop over the report ends, its N findings are those of
    the accepted lines, in the order of the lines.  The table written is the
    header and then, for k = 1..N in this order, the row of the k-th
    finding with the decimal text of k as its first field; the k-th
    document written is that of the k-th finding, under a name that starts
    with k in (at least) four digits.  So the ids are 1..N without gap or
    reordering, and the row and the document of a finding carry the same
    id. *)
Theorem ids_are_contiguous rt w lines items :
  read_items rt w lines = Ok items ->
  let ids := map Z.of_nat (seq 1 (length items)) in
  items = flat_map (fun ln => found (read_line rt w ln)) lines
  /\ length items = length (filter (well_formed rt) lines)
  /\ csv_text items
     = writerow fieldnames
       ++ flat_map (fun p =>
                      writerow
                        [str_of_int (fst p); file (snd p);
                         str_of_int (line (snd p)); marker (snd p);
                         content (snd p); context (snd p); priority (snd p);
                         owner (snd p); str_of_int (estimate_hours (snd p));
                         labels (snd p)])
            (combine ids items)
  /\ length (write_docs rt w items) = length items
  /\ (forall k it,
        nth_error items k = Some it ->
        let id := Z.of_nat (S k) in
        let name :=
          OUTDIR w ++ u "/" ++ format_04d id ++ u "-" ++ doc_safe rt it
          ++ u ".md" in
        nth_error (combine ids items) k = Some (id, it)
        /\ nth_error (write_docs rt w items) k
           = Some (match write_error w name with
                   | None => WriteText name (doc_body id it)
                   | Some e =>
                       Print (u "Failed writing " ++ name ++ u " " ++ e
                              ++ [LF])
                   end)
        /\ decimal_value (str_of_int id) = id
        /\ decimal_value (format_04d id) = id
        /\ Forall (fun c => is_ascii_digit c = true) (format_04d id)
        /\ (4 <= length (format_04d id))%nat)
  /\ (forall text,
        input w = Some (ReadOk text) ->
        lines = file_lines text ->
        write_error w (OUTDIR w) = None ->
        write_error w (OUTCSV w) = None ->
        write_error w (OUTDIR w ++ u "/README.md") = None ->
        main rt w
        = (Mkdir (OUTDIR w) :: WriteText (OUTCSV w) (csv_text items)
             :: write_docs rt w items
             ++ [WriteText (OUTDIR w ++ u "/README.md") README_TEXT;
                 Print (done_message w items)],
           Returned)).
Proof.
  intros R. cbv zeta.
  destruct (read_items_found rt w lines items R) as (HF & HL & _).
  split; [exact HF |]. split; [exact HL |].
  split.
  { unfold csv_text, csv_rows. rewrite enumerate_ids. f_equal.
    now rewrite flat_map_concat_map, map_map, <- flat_map_concat_map. }
  split; [unfold write_docs; now rewrite length_map, enumerate_length |].
  split.
  - intros k it Hk.
    assert (E : nth_error (enumerate items 1) k = Some (Z.of_nat (S k), it)).
    { rewrite enumerate_nth_error, Hk. cbn [option_map]. do 2 f_equal. lia. }
    assert (P : (0 <= Z.of_nat (S k))%Z) by lia.
    split; [now rewrite <- enumerate_ids |].
    split; [unfold write_docs; rewrite nth_error_map, E; reflexivity |].
    split; [now apply decimal_value_str_of_int |].
    now apply format_04d_value.
  - intros text Hin -> Hd Hc Hr. unfold main. rewrite Hin, Hd, R, Hc, Hr.
    reflexivity.
Qed.

(** two findings among four lines: ids 1 and 2, in the table and in the
    names of the documents *)
Lemma ids_are_contiguous_witness :
  let w := {| ROOT := u "/repo"; input := None; source := fun _ => None;
              write_error := fun _ => None |} in
  let lines := [u "a.c:3: // TODO one" ++ [LF]; u "noise" ++ [LF]; [LF];
                u "b.c:9: // FIXME two" ++ [LF]] in
  exists items,
    read_items ascii_runtime w lines = Ok items
    /\ length items = 2%nat
    /\ csv_text items
       = u "id,file,line,marker,content,context,priority,owner,estimate_hours,labels"
         ++ [CR; LF]
         ++ u "1,a.c,3,TODO,// TODO one,(file not found),Medium,Engineer,16,medium;todo"
         ++ [CR; LF]
         ++ u "2,b.c,9,FIXME,// FIXME two,(file not found),Medium,Engineer,16,medium;fixme"
         ++ [CR; LF]
    /\ map (fun e => match e with WriteText p _ => p | _ => [] end)
         (write_docs ascii_runtime w items)
       = [u "/repo/docs/issues/0001-TODO_one.md";
          u "/repo/docs/issues/0002-FIXME_two.md"].
Proof.
  intros w lines.
  destruct (read_items ascii_runtime w lines) as [items|e] eqn:E;
    [| vm_compute in E; discriminate E].
  exists items. split; [reflexivity |].
  destruct (ids_are_contiguous ascii_runtime w lines items E) as (_ & L & _).
  split; [rewrite L; vm_compute; reflexivity |].
  vm_compute in E. injection E as <-. split; vm_compute; reflexivity.
Defined.

(** ** C6: the context snippet *)

Lemma slice_as_map (A : Type) (d : A) (l : list A) n a :
  (a + n <= length l)%nat ->
  firstn n (skipn a l) = map (fun k => nth (a + k) l d) (seq 0 n).
Proof.
  revert a. induction n as [|n IH]; intros a H; [reflexivity |].
  assert (Ha : (a < length l)%nat) by lia.
  destruct (skipn a l) as [|x r] eqn:E.
  - apply (f_equal (@length A)) in E. rewrite length_skipn in E. simpl in E. lia.
  - assert (Hx : x = nth a l d /\ r = skipn (S a) l).
    { clear IH H. revert a Ha E. induction l as [|y l IHl]; intros a Ha E.
      - simpl in Ha. lia.
      - destruct a as [|a].
        + simpl in E. injection E as -> ->. now split.
        + apply (IHl a); [simpl in Ha; lia | exact E]. }
    destruct Hx as [-> ->].
    cbn [firstn seq map]. rewrite Nat.add_0_r. f_equal.
    rewrite IH by lia. rewrite <- seq_shift, map_map. apply map_ext.
    intros k. f_equal. lia.
Qed.

Lemma enumerate_map_seq (A : Type) (f : nat -> A) n start :
  enumerate (map f (seq 0 n)) start
  = map (fun k => ((start + Z.of_nat k)%Z, f k)) (seq 0 n).
Proof.
  revert f start. induction n as [|n IH]; intros f start; [reflexivity |].
  cbn [seq map enumerate]. rewrite Z.add_0_r. f_equal.
  rewrite <- seq_shift, !map_map. rewrite IH. apply map_ext.
  intros k. f_equal. lia.
Qed.

(** For a line number that is not below -3 the snippet is the window of
    the specification. *)
Lemma snippet_of_window all_lines line_no :
  (-3 <= line_no)%Z ->
  snippet_of all_lines line_no = snippet_spec all_lines line_no.
Proof.
  intros H. unfold snippet_of, snippet_spec, window, index_range, py_slice.
  set (len := Z.of_nat (length all_lines)).
  set (lo := Z.max 0 (line_no - 4)). set (hi := Z.min len (line_no + 3)).
  assert (Hhi : adjust_index len hi = hi).
  { unfold adjust_index. destruct (Z.ltb_spec hi 0); [lia |].
    destruct (Z.ltb_spec len hi); [lia | reflexivity]. }
  rewrite Hhi. f_equal.
  destruct (Z.le_gt_cases lo hi) as [Hle | Hgt].
  - assert (Hlo : adjust_index len lo = lo).
    { unfold adjust_index. destruct (Z.ltb_spec lo 0); [lia |].
      destruct (Z.ltb_spec len lo); [lia | reflexivity]. }
    rewrite Hlo.
    rewrite (slice_as_map str [] all_lines (Z.to_nat (hi - lo)) (Z.to_nat lo))
      by (subst len lo hi; lia).
    rewrite enumerate_map_seq, !map_map. apply map_ext. intros k.
    unfold numbered. cbn [fst snd]. do 3 f_equal. lia.
  - replace (Z.to_nat (hi - lo)) with 0%nat by lia.
    assert (Hlo : (hi <= adjust_index len lo)%Z).
    { unfold adjust_index. destruct (Z.ltb_spec lo 0); [lia |].
      destruct (Z.ltb_spec len lo); lia. }
    replace (Z.to_nat (hi - adjust_index len lo)) with 0%nat by lia.
    reflexivity.
Qed.

(** away from the ends of the file the window has seven lines: three
    before the match, the match, three after *)
Lemma window_seven line_count line_no :
  (4 <= line_no)%Z -> (line_no + 3 <= line_count)%Z ->
  window line_count line_no
  = [line_no - 4; line_no - 3; line_no - 2; line_no - 1; line_no;
     line_no + 1; line_no + 2]%Z.
Proof.
  intros H1 H2. unfold window, index_range.
  rewrite Z.max_r, Z.min_r by lia.
  replace (Z.to_nat (line_no + 3 - (line_no - 4))) with 7%nat by lia.
  cbn [seq map]. repeat (f_equal; try lia).
Qed.

(** C6.  With line number -5 (the report line [a.c:-5:x]) and a file of
    ten lines, the window of the specification is empty, but the script
    takes the first eight lines of the file: the negative upper bound of its
    slice counts from the end. *)
Theorem snippet_negative_line_wraps :
  window 10 (-5) = []
  /\ snippet_spec ten_lines (-5) = []
  /\ snippet_of ten_lines (-5)
     = join [LF] [u "1: a"; u "2: b"; u "3: c"; u "4: d"; u "5: e"; u "6: f";
                  u "7: g"; u "8: h"]
  /\ context_of
       {| ROOT := u "/repo"; input := None;
          source := fun _ => Some (ReadOk (join [LF] ten_lines ++ [LF]));
          write_error := fun _ => None |}
       (u "a.c") (-5)
     = Ok (snippet_of ten_lines (-5)).
Proof. repeat split; vm_compute; reflexivity. Qed.

(** ** C7: the safe title *)

Ltac chars :=
  unfold title_char, token_char, blank, isspace in *; ranges.

Section Title.

Variable rt : PyRuntime.

Lemma title_char_space c :
  title_char c = true -> isspace rt c = (c =? 32)%N /\ blank c = (c =? 32)%N.
Proof. intros H. split; chars. Qed.

Lemma token_char_facts c :
  token_char c = true ->
  title_char c = true /\ (c =? 32)%N = false /\ isspace rt c = false
  /\ blank c = false.
Proof. intros H. repeat split; chars. Qed.

Lemma title_not_blank_token c :
  title_char c = true -> (c =? 32)%N = false -> token_char c = true.
Proof. intros H1 H2. chars. Qed.

Lemma re_sub_run_delete cls in_run s :
  re_sub_run cls [] in_run s = filter (fun c => negb (cls c)) s.
Proof.
  revert in_run. induction s as [|c s IH]; intros in_run; [reflexivity |].
  cbn [re_sub_run filter]. destruct (cls c); cbn [negb].
  - rewrite IH. now destruct in_run.
  - now rewrite IH.
Qed.

Lemma re_sub_junk s :
  re_sub (fun c => negb (title_char c)) [] s = filter title_char s.
Proof.
  unfold re_sub. rewrite re_sub_run_delete. apply filter_ext.
  intros c. now destruct (title_char c).
Qed.

Lemma lstrip_by_incl p s c : In c (lstrip_by p s) -> In c s.
Proof.
  induction s as [|x s IH]; [intros [] |]. cbn [lstrip_by].
  destruct (p x); [intros H; right; now apply IH | trivial].
Qed.

Lemma rstrip_by_incl p s c : In c (rstrip_by p s) -> In c s.
Proof.
  destruct (rstrip_by_suffix p s) as (t & Hs & _). intros H.
  rewrite Hs. apply in_or_app. now left.
Qed.

Lemma rstrip_by_length p s : (length (rstrip_by p s) <= length s)%nat.
Proof.
  destruct (rstrip_by_suffix p s) as (t & Hs & _).
  rewrite Hs at 2. rewrite length_app. lia.
Qed.

Lemma rstrip_by_ends_clean p s : ends_clean p (rstrip_by p s).
Proof.
  induction s as [|x s IH]; intros a c E.
  - now destruct a.
  - cbn [rstrip_by] in E. destruct (rstrip_by p s) as [|y r] eqn:R.
    + destruct (p x) eqn:Px; [now destruct a |].
      destruct a as [|? [|? ?]]; try discriminate. now injection E as <-.
    + destruct a as [|z a].
      * discriminate.
      * injection E as _ E. now apply (IH a c).
Qed.

Lemma rstrip_by_fixed p t : ends_clean p t -> rstrip_by p t = t.
Proof.
  intros H. destruct (rev t) as [|c a] eqn:E.
  - apply (f_equal (@rev N)) in E. rewrite rev_involutive in E. now subst t.
  - apply (f_equal (@rev N)) in E. rewrite rev_involutive in E. simpl in E.
    subst t. apply rstrip_by_snoc_keep. now apply (H (rev a) c).
Qed.

Lemma collapse_snoc b a c :
  isspace rt c = false ->
  collapse_whitespace rt b (a ++ [c]) = collapse_whitespace rt b a ++ [c].
Proof.
  intros H. revert b. induction a as [|x a IH]; intros b.
  - simpl. now rewrite H.
  - cbn [app collapse_whitespace]. destruct (isspace rt x).
    + now rewrite IH, app_assoc.
    + now rewrite IH.
Qed.

Lemma collapse_ends_clean b t :
  ends_clean (isspace rt) t ->
  ends_clean (isspace rt) (collapse_whitespace rt b t).
Proof.
  intros H a c E. destruct (rev t) as [|y r] eqn:R.
  - apply (f_equal (@rev N)) in R. rewrite rev_involutive in R. subst t.
    now destruct a.
  - apply (f_equal (@rev N)) in R. rewrite rev_involutive in R. simpl in R.
    subst t. pose proof (H (rev r) y eq_refl) as Hy.
    rewrite (collapse_snoc _ _ _ Hy) in E.
    apply app_inj_tail in E as [_ <-]. exact Hy.
Qed.

Lemma collapse_incl b t c :
  In c (collapse_whitespace rt b t) -> c = 32%N \/ In c t.
Proof.
  revert b. induction t as [|x t IH]; intros b; [intros [] |].
  cbn [collapse_whitespace]. destruct (isspace rt x).
  - intros H. apply in_app_or in H as [H | H].
    + destruct b; [destruct H |]. destruct H as [<- | []]. now left.
    + destruct (IH _ H); [now left | right; now right].
  - intros [<- | H]; [right; now left |].
    destruct (IH _ H); [now left | right; now right].
Qed.

(** on title characters [re.sub] of the blanks is the collapse of the
    whitespace *)
Lemma re_sub_blank_collapse b t :
  (forall c, In c t -> title_char c = true) ->
  re_sub_run blank (u " ") b t = collapse_whitespace rt b t.
Proof.
  revert b. induction t as [|x t IH]; intros b H; [reflexivity |].
  cbn [re_sub_run collapse_whitespace].
  destruct (title_char_space x (H x (or_introl eq_refl))) as [-> ->].
  rewrite !IH by (intros c Hc; apply H; now right). reflexivity.
Qed.

Lemma re_sub_run_none cls repl b t :
  (forall c, In c t -> cls c = false) -> re_sub_run cls repl b t = t.
Proof.
  revert b. induction t as [|x t IH]; intros b H; [reflexivity |].
  cbn [re_sub_run]. rewrite (H x (or_introl eq_refl)).
  now rewrite IH by (intros c Hc; apply H; now right).
Qed.

Lemma filter_all (p : N -> bool) t :
  (forall c, In c t -> p c = true) -> filter p t = t.
Proof.
  induction t as [|x t IH]; intros H; [reflexivity |].
  cbn [filter]. rewrite (H x (or_introl eq_refl)).
  now rewrite IH by (intros c Hc; apply H; now right).
Qed.

Lemma replace_none a b t :
  (forall c, In c t -> (c =? a)%N = false) -> replace a b t = t.
Proof.
  unfold replace. induction t as [|x t IH]; intros H; [reflexivity |].
  cbn [map]. rewrite (H x (or_introl eq_refl)).
  now rewrite IH by (intros c Hc; apply H; now right).
Qed.

Lemma firstn_incl (n : nat) (l : str) c : In c (firstn n l) -> In c l.
Proof.
  revert l. induction n as [|n IH]; intros [|x l]; simpl; try tauto.
  intros [<- | H]; [now left | right; now apply IH].
Qed.

Lemma title_core_chars text c :
  In c (title_core rt text) -> title_char c = true.
Proof.
  unfold title_core, rstrip, strip, strip_by. intros H.
  apply rstrip_by_incl, firstn_incl, collapse_incl in H.
  destruct H as [-> | H]; [reflexivity |].
  apply rstrip_by_incl, lstrip_by_incl, filter_In in H. apply H.
Qed.

Lemma title_core_length text : (length (title_core rt text) <= 60)%nat.
Proof.
  unfold title_core, rstrip.
  etransitivity; [apply rstrip_by_length |]. apply firstn_le_length.
Qed.

Lemma sanitize_title_core text :
  sanitize_title rt text
  = if is_empty (title_core rt text) then u "todo"
    else replace 32 95 (title_core rt text).
Proof.
  unfold sanitize_title, title_core. rewrite re_sub_junk.
  set (s := strip rt (filter title_char text)).
  assert (Hs : forall c, In c s -> title_char c = true).
  { intros c H. unfold s, strip, strip_by in H.
    apply rstrip_by_incl, lstrip_by_incl, filter_In in H. apply H. }
  unfold re_sub. rewrite (re_sub_blank_collapse _ _ Hs).
  set (t := collapse_whitespace rt false s).
  destruct (Nat.ltb_spec 60 (length t)) as [Hlt | Hge]; [reflexivity |].
  rewrite firstn_all2 by exact Hge.
  assert (Ht : rstrip rt t = t).
  { apply rstrip_by_fixed. apply collapse_ends_clean.
    unfold s, strip, strip_by. apply rstrip_by_ends_clean. }
  now rewrite Ht.
Qed.

Lemma sanitize_title_words text :
  sanitize_title rt (prefix 80 text) = safe_title_words rt true text.
Proof. rewrite sanitize_title_core. reflexivity. Qed.

Lemma sanitize_title_token text c :
  In c (sanitize_title rt text) -> token_char c = true.
Proof.
  rewrite sanitize_title_core. destruct (is_empty (title_core rt text)).
  - intros H. simpl in H.
    repeat (destruct H as [<- | H]; [reflexivity |]). destruct H.
  - unfold replace. intros H. apply in_map_iff in H as (x & <- & Hx).
    apply title_core_chars in Hx. destruct (N.eqb_spec x 32); [reflexivity |].
    apply title_not_blank_token; [exact Hx | now apply N.eqb_neq].
Qed.

Lemma sanitize_title_nonempty text : sanitize_title rt text <> [].
Proof.
  rewrite sanitize_title_core. destruct (title_core rt text) eqn:E.
  - discriminate.
  - discriminate.
Qed.

Lemma sanitize_title_length text :
  (1 <= length (sanitize_title rt text) <= 60)%nat.
Proof.
  pose proof (sanitize_title_nonempty text) as Hne.
  split; [destruct (sanitize_title rt text); [congruence | simpl; lia] |].
  rewrite sanitize_title_core. destruct (is_empty (title_core rt text)).
  - simpl. lia.
  - unfold replace. rewrite length_map. apply title_core_length.
Qed.

Lemma lstrip_by_fixed p t :
  (forall c, In c t -> p c = false) -> lstrip_by p t = t.
Proof.
  destruct t as [|x t]; [reflexivity |]. intros H. cbn [lstrip_by].
  now rewrite (H x (or_introl eq_refl)).
Qed.

(** a non-empty token of at most 60 characters is its own safe title *)
Lemma sanitize_title_fixed d :
  d <> [] -> (length d <= 60)%nat ->
  (forall c, In c d -> token_char c = true) ->
  sanitize_title rt d = d.
Proof.
  intros Hne Hlen Hd. rewrite sanitize_title_core. unfold title_core.
  rewrite filter_all by (intros c Hc; now apply token_char_facts, Hd).
  assert (Hsp : forall c, In c d -> isspace rt c = false)
    by (intros c Hc; now apply token_char_facts, Hd).
  assert (Hstrip : strip rt d = d).
  { unfold strip, strip_by. rewrite (lstrip_by_fixed _ _ Hsp).
    apply rstrip_by_fixed. intros a c ->. apply Hsp, in_or_app. right. now left. }
  rewrite Hstrip.
  assert (Hcol : collapse_whitespace rt false d = d).
  { rewrite <- re_sub_blank_collapse
      by (intros c Hc; now apply token_char_facts, Hd).
    apply re_sub_run_none. intros c Hc. now apply token_char_facts, Hd. }
  rewrite Hcol, firstn_all2 by exact Hlen.
  fold (strip rt d) in Hstrip. unfold strip, strip_by in Hstrip.
  rewrite (lstrip_by_fixed _ _ Hsp) in Hstrip. unfold rstrip. rewrite Hstrip.
  destruct d as [|x d]; [congruence |]. cbn [is_empty].
  apply replace_none. intros c Hc. now apply token_char_facts, Hd.
Qed.

End Title.

(** C7 (amended).  The safe title of a text is defined for every text; it
    is what the specification describes provided the whitespace at both
    ends is removed after the disallowed characters are; it is a non-empty
    token of at most 60 characters of [[0-9A-Za-z_-]]; and deriving the
    safe title of a safe title gives it back. *)
Theorem safe_title_total_idempotent rt text :
  let d := sanitize_title rt (prefix 80 text) in
  d = safe_title_words rt true text
  /\ d <> []
  /\ (length d <= 60)%nat
  /\ forallb token_char d = true
  /\ sanitize_title rt (prefix 80 d) = d
  /\ (title_core rt (prefix 80 text) = [] -> d = u "todo").
Proof.
  cbv zeta. split; [apply sanitize_title_words |].
  split; [apply sanitize_title_nonempty |].
  split; [apply sanitize_title_length |].
  split; [apply forallb_forall; intros c; apply sanitize_title_token |].
  split.
  - unfold prefix at 1.
    rewrite firstn_all2
      by (pose proof (sanitize_title_length rt (prefix 80 text)); lia).
    apply sanitize_title_fixed.
    + apply sanitize_title_nonempty.
    + apply sanitize_title_length.
    + intros c. apply sanitize_title_token.
  - intros E. rewrite sanitize_title_core, E. reflexivity.
Qed.

(** C7 as stated fails: without the removal of whitespace at the ends the
    described steps keep a leading blank, which becomes an underscore. *)
Lemma safe_title_counterexample :
  sanitize_title ascii_runtime (prefix 80 (u "! hello")) = u "hello"
  /\ safe_title_words ascii_runtime false (u "! hello") = u "_hello"
  /\ ~ (forall rt text,
          sanitize_title rt (prefix 80 text) = safe_title_words rt false text).
Proof.
  split; [vm_compute; reflexivity |]. split; [vm_compute; reflexivity |].
  intros H. specialize (H ascii_runtime (u "! hello")).
  vm_compute in H. discriminate.
Qed.

(** ** C4: the table read back *)

Module ReaderFacts.
Import Reader.

Lemma lines_nonempty text : text <> [] -> lines text <> [].
Proof.
  destruct text as [|c r]; [congruence |]. intros _. cbn [lines].
  destruct (c =? LF)%N; [discriminate |].
  destruct (c =? CR)%N.
  - destruct r as [|d r']; [discriminate |]. now destruct (d =? LF)%N.
  - now destruct (lines r).
Qed.

(** the one-character-at-a-time stream is the stream of the lines *)
Lemma stream_events text :
  stream text Closed = events (lines text)
  /\ stream text Open
     = match text with [] => [EOL] | _ => events (lines text) end
  /\ stream text PendingCR
     = match text with
       | [] => [EOL]
       | c :: r =>
           if (c =? LF)%N then Ch LF :: EOL :: events (lines r)
           else EOL :: events (lines text)
       end.
Proof.
  induction text as [|c r (IH1 & IH2 & IH3)]; [repeat split |].
  assert (E : stream (c :: r) Closed = events (lines (c :: r))).
  { cbn [stream lines]. unfold next_char.
    destruct (N.eqb_spec c LF) as [-> | HLF].
    - cbn [fst snd app]. now rewrite IH1.
    - destruct (N.eqb_spec c CR) as [-> | HCR].
      + cbn [fst snd app]. rewrite IH3. destruct r as [|d r']; [reflexivity |].
        destruct (N.eqb_spec d LF) as [-> | _]; reflexivity.
      + cbn [fst snd app]. rewrite IH2. destruct r as [|d r']; [reflexivity |].
        pose proof (lines_nonempty (d :: r')) as Hne.
        destruct (lines (d :: r')) as [|l ls]; [now destruct Hne |].
        reflexivity. }
  split; [exact E |]. split; [exact E |].
  rewrite <- E. cbn [stream]. unfold next_char.
  destruct (N.eqb_spec c LF) as [-> | HLF]; [cbn [fst snd app]; now rewrite IH1 |].
  destruct (N.eqb_spec c CR) as [-> | HCR]; reflexivity.
Qed.

Section Limit.

Variable limit : N.

Lemma read_go text :
  read limit text = finish (go limit (Some ([], reset)) Closed text).
Proof. unfold read, go. now rewrite (proj1 (stream_events text)). Qed.

Lemma go_cons acc ls c r :
  go limit acc ls (c :: r)
  = go limit (fold_left (feed limit) (fst (next_char ls c)) acc)
      (snd (next_char ls c)) r.
Proof. unfold go. cbn [stream]. now rewrite fold_left_app. Qed.

Lemma go_nil acc : go limit acc Closed [] = acc.
Proof. reflexivity. Qed.

Lemma add_char_fits r c s :
  (N.of_nat (length (field r)) < limit)%N ->
  add_char limit r c s
  = Some {| st := s; field := field r ++ [c]; fields := fields r |}.
Proof.
  intros H. unfold add_char.
  destruct (N.leb_spec limit (N.of_nat (length (field r)))); [lia | reflexivity].
Qed.

Lemma add_char_full r c s :
  (limit <= N.of_nat (length (field r)))%N -> add_char limit r c s = None.
Proof.
  intros H. unfold add_char.
  destruct (N.leb_spec limit (N.of_nat (length (field r)))); [reflexivity | lia].
Qed.

End Limit.

Ltac char_cases c :=
  destruct (N.eq_dec c LF) as [? | ?];
  [ subst c
  | destruct (N.eq_dec c CR) as [? | ?];
    [ subst c
    | destruct (N.eq_dec c DQUOTE) as [? | ?];
      [ subst c
      | destruct (N.eq_dec c COMMA) as [? | ?];
        [ subst c
        | repeat match goal with
                 | H : c <> _ |- _ => apply N.eqb_neq in H
                 end ] ] ] ].

Ltac known_cmp :=
  repeat match goal with
         | H : (?a =? ?b)%N = _ |- context [(?a =? ?b)%N] => rewrite H
         | |- context [(?a =? ?b)%N] =>
             let v := eval cbv in (a =? b)%N in
             match v with
             | true => change (a =? b)%N with true
             | false => change (a =? b)%N with false
             end
         end.

(** the room left in the field buffer *)
Ltac room :=
  unfold fits, goto, save_field in *; cbn [field length] in *;
  repeat match goal with
         | H : context [length (_ ++ _)] |- _ => rewrite length_app in H
         end;
  cbn [length] in *; lia.

Ltac machine :=
  repeat (progress (cbn [feed parse_process_char start_field st field fields
                         save_field goto fold_left fst snd
                         at_start in_quoted orb andb app next_char];
                    unfold is_newline, goto, save_field;
                    known_cmp;
                    try (rewrite add_char_fits by room))).

Section Written.

Variable limit : N.

Lemma quoted_body f buf fs recs ls rest :
  fits limit (buf ++ f) ->
  go limit
    (Some (recs, {| st := IN_QUOTED_FIELD; field := buf; fields := fs |}))
    ls (double_quotes f ++ DQUOTE :: rest)
  = go limit
      (Some (recs, {| st := QUOTE_IN_QUOTED_FIELD; field := buf ++ f;
                      fields := fs |}))
      Open rest.
Proof.
  revert buf ls. induction f as [|c f IH]; intros buf ls Hfit.
  - cbn [double_quotes flat_map app]. rewrite go_cons, app_nil_r.
    destruct ls; machine; reflexivity.
  - cbn [double_quotes flat_map]. rewrite <- app_assoc.
    fold (double_quotes f).
    assert (Hfit' : fits limit ((buf ++ [c]) ++ f))
      by (now rewrite <- app_assoc).
    replace (buf ++ c :: f) with ((buf ++ [c]) ++ f)
      by (now rewrite <- app_assoc).
    char_cases c; known_cmp; cbn [app]; rewrite !go_cons;
      destruct ls; machine; now apply IH.
Qed.

Lemma plain_body f buf fs recs rest :
  existsb must_quote f = false ->
  fits limit (buf ++ f) ->
  go limit (Some (recs, {| st := IN_FIELD; field := buf; fields := fs |}))
    Open (f ++ rest)
  = go limit
      (Some (recs, {| st := IN_FIELD; field := buf ++ f; fields := fs |}))
      Open rest.
Proof.
  revert buf. induction f as [|c f IH]; intros buf H Hfit.
  - now rewrite app_nil_r.
  - cbn [existsb] in H. apply orb_false_iff in H as [Hc Hf].
    assert (Hfit' : fits limit ((buf ++ [c]) ++ f))
      by (now rewrite <- app_assoc).
    replace (buf ++ c :: f) with ((buf ++ [c]) ++ f)
      by (now rewrite <- app_assoc).
    cbn [app]. rewrite go_cons.
    char_cases c; try discriminate Hc.
    machine. now apply IH.
Qed.

Lemma field_body f s fs recs ls rest :
  starting s -> ls <> PendingCR -> fits limit f ->
  go limit (Some (recs, fresh s fs)) ls (csv_field f ++ rest)
  = go limit (Some (recs, fst (after_field f s fs ls)))
      (snd (after_field f s fs ls)) rest.
Proof.
  intros Hs Hls Hfit. unfold csv_field, after_field.
  destruct (existsb must_quote f) eqn:Q.
  - cbn [app fst snd]. rewrite go_cons, <- app_assoc. cbn [app].
    replace (fold_left (feed limit) (fst (next_char ls DQUOTE))
               (Some (recs, fresh s fs)))
      with (Some (recs, {| st := IN_QUOTED_FIELD; field := []; fields := fs |}))
      by (destruct Hs as [-> | ->]; destruct ls; try congruence;
          unfold fresh; machine; reflexivity).
    now apply (quoted_body f []).
  - destruct f as [|c f]; [reflexivity |].
    cbn [existsb] in Q. apply orb_false_iff in Q as [Hc Hf].
    cbn [app fst snd]. rewrite go_cons.
    char_cases c; try discriminate Hc.
    replace (fold_left (feed limit) (fst (next_char ls c))
               (Some (recs, fresh s fs)))
      with (Some (recs, {| st := IN_FIELD; field := [c]; fields := fs |}))
      by (destruct Hs as [-> | ->]; destruct ls; try congruence;
          unfold fresh; machine; reflexivity).
    replace (snd (next_char ls c)) with Open
      by (destruct ls; try congruence; machine; reflexivity).
    now apply (plain_body f [c]).
Qed.

Lemma field_comma f s fs recs ls rest :
  starting s -> ls <> PendingCR -> fits limit f ->
  go limit (Some (recs, fresh s fs)) ls (csv_field f ++ COMMA :: rest)
  = go limit (Some (recs, fresh START_FIELD (fs ++ [f]))) Open rest.
Proof.
  intros Hs Hls Hfit. rewrite field_body by assumption. unfold after_field.
  destruct (existsb must_quote f).
  - cbn [fst snd]. rewrite go_cons. machine. reflexivity.
  - destruct f as [|c f]; cbn [fst snd]; rewrite go_cons.
    + destruct Hs as [-> | ->]; destruct ls; try congruence;
        unfold fresh; machine; reflexivity.
    + machine. reflexivity.
Qed.

Lemma field_crlf f s fs recs ls rest :
  s = START_FIELD \/ (s = START_RECORD /\ f <> []) -> ls <> PendingCR ->
  fits limit f ->
  go limit (Some (recs, fresh s fs)) ls (csv_field f ++ CR :: LF :: rest)
  = go limit (Some (recs ++ [fs ++ [f]], reset)) Closed rest.
Proof.
  intros Hs Hls Hfit.
  rewrite field_body; [| destruct Hs as [-> | [-> _]]; [now right | now left]
                       | assumption | assumption].
  unfold after_field. destruct (existsb must_quote f).
  - cbn [fst snd]. rewrite !go_cons. machine. reflexivity.
  - destruct f as [|c f]; cbn [fst snd]; rewrite !go_cons.
    + destruct Hs as [-> | [_ Hne]]; [| congruence].
      destruct ls; try congruence; unfold fresh; machine; reflexivity.
    + machine. reflexivity.
Qed.

Lemma row_read row s fs recs ls rest :
  row <> [] ->
  s = START_FIELD \/ (s = START_RECORD /\ row <> [[]]) ->
  ls <> PendingCR ->
  Forall (fits limit) row ->
  go limit (Some (recs, fresh s fs)) ls
    (join [COMMA] (map csv_field row) ++ CR :: LF :: rest)
  = go limit (Some (recs ++ [fs ++ row], reset)) Closed rest.
Proof.
  revert s fs ls. induction row as [|f row IH]; intros s fs ls Hne Hs Hls Hfit;
    [congruence |].
  inversion Hfit as [|? ? Hf Hrow]; subst.
  destruct row as [|g row].
  - cbn [map join]. apply field_crlf; [| assumption | assumption].
    destruct Hs as [-> | [-> H]]; [now left | right].
    split; [reflexivity | intros ->; now apply H].
  - change (join [COMMA] (map csv_field (f :: g :: row)))
      with (csv_field f ++ [COMMA] ++ join [COMMA] (map csv_field (g :: row))).
    rewrite <- !app_assoc. cbn [app].
    rewrite field_comma;
      [| destruct Hs as [-> | [-> _]]; [now right | now left] | assumption
       | assumption].
    rewrite IH; [| discriminate | now left | discriminate | assumption].
    now rewrite <- app_assoc.
Qed.

Lemma writerow_read row recs rest :
  Forall (fits limit) row ->
  go limit (Some (recs, reset)) Closed (writerow row ++ rest)
  = go limit (Some (recs ++ [row], reset)) Closed rest.
Proof.
  intros Hfit. destruct row as [|f row].
  - cbn [writerow map join app]. rewrite !go_cons. machine. reflexivity.
  - destruct f as [|c f].
    + destruct row as [|g row].
      * cbn [writerow app]. rewrite !go_cons. machine. reflexivity.
      * change (writerow ([] :: g :: row))
          with (join [COMMA] (map csv_field ([] :: g :: row)) ++ [CR; LF]).
        rewrite <- app_assoc. cbn [app].
        apply (row_read _ START_RECORD []);
          [discriminate | | discriminate | assumption].
        right. split; [reflexivity | discriminate].
    + change (writerow ((c :: f) :: row))
        with (join [COMMA] (map csv_field ((c :: f) :: row)) ++ [CR; LF]).
      rewrite <- app_assoc. cbn [app].
      apply (row_read _ START_RECORD []);
        [discriminate | | discriminate | assumption].
      right. split; [reflexivity | discriminate].
Qed.

Lemma rows_read rows recs :
  Forall (Forall (fits limit)) rows ->
  go limit (Some (recs, reset)) Closed (flat_map writerow rows)
  = Some (recs ++ rows, reset).
Proof.
  revert recs. induction rows as [|row rows IH]; intros recs Hfit.
  - cbn [flat_map]. now rewrite go_nil, app_nil_r.
  - inversion Hfit; subst. cbn [flat_map].
    rewrite writerow_read, IH by assumption. now rewrite <- app_assoc.
Qed.

(** reading what [writerow] wrote gives the rows back, whatever characters
    their fields hold, when no field is longer than the limit *)
Lemma read_written rows :
  Forall (Forall (fits limit)) rows ->
  read limit (flat_map writerow rows) = Some rows.
Proof. intros H. rewrite read_go, rows_read by assumption. reflexivity. Qed.

End Written.

End ReaderFacts.

Lemma digits_of_uint_inj d d' : digits_of_uint d = digits_of_uint d' -> d = d'.
Proof.
  revert d'. induction d as [|d IH|d IH|d IH|d IH|d IH|d IH|d IH|d IH|d IH|d IH];
    intros [|d'|d'|d'|d'|d'|d'|d'|d'|d'|d']; cbn [digits_of_uint];
    intros H; try discriminate H; try reflexivity;
    injection H as H; f_equal; now apply IH.
Qed.

Lemma digits_of_uint_not_sign d r : digits_of_uint d <> 45%N :: r.
Proof. destruct d; discriminate. Qed.

Lemma str_of_N_inj a b : str_of_N a = str_of_N b -> a = b.
Proof.
  unfold str_of_N. intros H. now apply Unsigned.to_uint_inj, digits_of_uint_inj.
Qed.

(** [str] of an integer determines the integer *)
Lemma str_of_int_inj a b : str_of_int a = str_of_int b -> a = b.
Proof.
  unfold str_of_int.
  destruct a as [|p|p], b as [|q|q]; intros H;
    try (now destruct (digits_of_uint_not_sign _ _ H));
    try (symmetry in H; now destruct (digits_of_uint_not_sign _ _ H));
    try (injection H as H); apply str_of_N_inj in H; cbn [Z.to_N] in H;
    congruence.
Qed.

(** C4.  Read back with [csv.reader], the table gives the header row
    [id,file,line,marker,content,context,priority,owner,estimate_hours,labels]
    and then, in order, one row per finding that holds its id and its nine
    fields character for character (numbers as their decimal text, from
    which they are recovered), whatever characters the fields contain:
    commas, quotes and line breaks included.  The reader takes fields up to
    its size limit: this is so when no field of the table is longer than
    that. *)
Theorem csv_round_trip limit items :
  let rows :=
    map (fun p =>
           [str_of_int (fst p); file (snd p); str_of_int (line (snd p));
            marker (snd p); content (snd p); context (snd p);
            priority (snd p); owner (snd p);
            str_of_int (estimate_hours (snd p)); labels (snd p)])
      (enumerate items 1) in
  Forall (Forall (Reader.fits limit)) (fieldnames :: rows) ->
  Reader.read limit (csv_text items) = Some (fieldnames :: rows)
  /\ csv_text items
     = u "id,file,line,marker,content,context,priority,owner,estimate_hours,labels"
       ++ [CR; LF] ++ flat_map writerow rows
  /\ map fst (enumerate items 1) = map Z.of_nat (seq 1 (length items))
  /\ map snd (enumerate items 1) = items
  /\ (forall a b, str_of_int a = str_of_int b -> a = b)
  /\ (forall table,
        Forall (Forall (Reader.fits limit)) table ->
        Reader.read limit (flat_map writerow table) = Some table).
Proof.
  cbv zeta. intros Hfit.
  split; [| split; [| split; [| split; [| split]]]].
  - change (csv_text items)
      with (flat_map writerow (fieldnames :: csv_rows items)).
    apply ReaderFacts.read_written. exact Hfit.
  - reflexivity.
  - rewrite enumerate_fst, <- seq_shift, map_map. apply map_ext. intros k. lia.
  - clear Hfit. generalize 1%Z.
    induction items as [|it items IH]; intros z; [reflexivity |].
    cbn [enumerate map snd]. now rewrite IH.
  - apply str_of_int_inj.
  - apply ReaderFacts.read_written.
Qed.

(** a finding whose text holds a comma and a quote and whose context holds
    line breaks, read back under the limit of a fresh interpreter *)
Lemma csv_round_trip_witness :
  let it := {| file := u "fs/inode.c"; line := 7%Z; marker := u "TODO";
               content := u "// TODO: a, b" ++ [DQUOTE] ++ u "c";
               context := u "6: x" ++ [LF] ++ u "7: y," ++ [CR; LF] ++ u "8: z";
               priority := u "Critical"; owner := u "Filesystems Engineer";
               estimate_hours := 40%Z; labels := u "critical;todo" |} in
  Reader.read Reader.FIELD_LIMIT (csv_text [it])
  = Some [fieldnames;
          [u "1"; u "fs/inode.c"; u "7"; u "TODO";
           u "// TODO: a, b" ++ [DQUOTE] ++ u "c";
           u "6: x" ++ [LF] ++ u "7: y," ++ [CR; LF] ++ u "8: z";
           u "Critical"; u "Filesystems Engineer"; u "40"; u "critical;todo"]].
Proof.
  intros it.
  refine (proj1 (csv_round_trip Reader.FIELD_LIMIT [it] _)).
  repeat constructor; unfold Reader.fits; vm_compute; discriminate.
Defined.

Example csv_round_trip_ex :
  let it := {| file := u "fs/inode.c"; line := 7%Z; marker := u "TODO";
               content := u "// TODO: a, b" ++ [DQUOTE] ++ u "c";
               context := u "6: x" ++ [LF] ++ u "7: y," ++ [CR; LF] ++ u "8: z";
               priority := u "Critical"; owner := u "Filesystems Engineer";
               estimate_hours := 40%Z; labels := u "critical;todo" |} in
  flat_map writerow (csv_rows [it])
  = u "1,fs/inode.c,7,TODO," ++ [DQUOTE] ++ u "// TODO: a, b"
    ++ [DQUOTE; DQUOTE] ++ u "c" ++ [DQUOTE] ++ u "," ++ [DQUOTE] ++ u "6: x"
    ++ [LF] ++ u "7: y," ++ [CR; LF] ++ u "8: z" ++ [DQUOTE]
    ++ u ",Critical,Filesystems Engineer,40,critical;todo" ++ [CR; LF]
  /\ Reader.read 13 (csv_text [it]) = None.
Proof. split; vm_compute; reflexivity. Qed.

(** * Further properties of the script *)

Lemma str_eqb_eq a b : str_eqb a b = true -> a = b.
Proof.
  revert b. induction a as [|x a IH]; intros [|y b]; simpl; try discriminate.
  - reflexivity.
  - rewrite andb_true_iff, N.eqb_eq. intros [-> H]. f_equal. now apply IH.
Qed.

Lemma mem_In x l : mem x l = true -> In x l.
Proof.
  unfold mem. rewrite existsb_exists. intros (y & Hy & E).
  apply str_eqb_eq in E. now subst y.
Qed.

(** ** X1: the inferred columns take their values in closed sets *)

Lemma guess_props_in rt path text :
  In (guess_props rt path text) (DEFAULT_PROPS :: map props_of PRIORITY_MAP).
Proof.
  unfold guess_props.
  destruct (first_match_spec rt PRIORITY_MAP (path ++ u " " ++ text))
    as [(pre & r & post & E & _ & _ & ->) | [_ ->]].
  - right. apply in_map. rewrite E. apply in_or_app. right. now left.
  - now left.
Qed.

Lemma detect_marker_in text : In (detect_marker text) (NOTE :: MARKERS).
Proof.
  unfold detect_marker. destruct (first_marker MARKERS text) as [m|] eqn:E.
  - destruct (is_empty m); [now left | right].
    eapply first_marker_in, E.
  - now left.
Qed.

(** X1.  Whatever the report line, the finding made of it has one of the
    nine triples of the rule table (the eight rules and the default) as
    priority, owner and estimate, so its priority is one of Critical, High,
    Medium, Low and its estimate lies between 8 and 40 hours; its marker is
    NOTE or one of the six literals; and its labels are one of the 28
    combinations of a lower-case priority and a lower-case marker. *)
Theorem classification_is_closed rt parsed ctx_snippet :
  let it := make_item rt parsed ctx_snippet in
  In (priority it, owner it, estimate_hours it)
    (DEFAULT_PROPS :: map props_of PRIORITY_MAP)
  /\ In (priority it) PRIORITIES
  /\ (8 <= estimate_hours it <= 40)%Z
  /\ In (marker it) (NOTE :: MARKERS)
  /\ In (labels it) LABELS.
Proof.
  destruct parsed as [[f n] c]. cbv zeta. rewrite make_item_eq.
  cbn [priority owner estimate_hours marker labels].
  pose proof (guess_props_in rt f c) as Hg.
  pose proof (detect_marker_in c) as Hm.
  destruct (guess_props rt f c) as [[pr ow] h].
  destruct (detect_marker c) as [|m0 m] eqn:Em;
    [vm_compute in Hm; repeat (destruct Hm as [Hm | Hm]; try discriminate Hm);
     destruct Hm |].
  rewrite <- Em in *. clear Em m0 m. cbn [fst snd].
  split; [exact Hg |]. split; [| split; [| split; [exact Hm |]]].
  - vm_compute in Hg.
    repeat (destruct Hg as [Hg | Hg];
            [injection Hg as <- _ _; apply mem_In; reflexivity |]).
    destruct Hg.
  - vm_compute in Hg.
    repeat (destruct Hg as [Hg | Hg]; [injection Hg as _ _ <-; lia |]).
    destruct Hg.
  - assert (Hp : In (lower rt pr) [u "critical"; u "high"; u "medium"; u "low"]).
    { vm_compute in Hg.
      repeat (destruct Hg as [Hg | Hg];
              [injection Hg as <- _ _; apply mem_In; reflexivity |]).
      destruct Hg. }
    assert (Hl : In (lower rt (detect_marker c))
                   [u "todo"; u "fixme"; u "stub"; u "placeholder";
                    u "temporary"; u "hack"; u "note"]).
    { unfold NOTE, MARKERS in Hm. cbn [In] in Hm.
      repeat (destruct Hm as [<- | Hm]; [apply mem_In; reflexivity |]).
      destruct Hm. }
    unfold LABELS. apply in_map_iff.
    exists (lower rt pr, lower rt (detect_marker c)). split.
    + reflexivity.
    + now apply in_prod.
Qed.

(** ** X2: the marker can be read off the stored text *)

Lemma lstrip_by_prefix p s :
  exists a, s = a ++ lstrip_by p s /\ Forall (fun c => p c = true) a.
Proof.
  induction s as [|x s (a & Hs & Ha)].
  - now exists [].
  - cbn [lstrip_by]. destruct (p x) eqn:Px.
    + exists (x :: a). split; [simpl; now rewrite <- Hs | now constructor].
    + now exists [].
Qed.

Lemma occurs_in_lstrip p m s :
  (exists x m', m = x :: m' /\ p x = false) ->
  occurs_in m s -> occurs_in m (lstrip_by p s).
Proof.
  intros (x & m' & -> & Px) (a & b & ->).
  induction a as [|y a IH].
  - cbn [app lstrip_by]. rewrite Px. now exists [], b.
  - cbn [app lstrip_by]. destruct (p y); [exact IH |].
    now exists (y :: a), b.
Qed.

Lemma occurs_in_rstrip p m s :
  (exists m0 z, m = m0 ++ [z] /\ p z = false) ->
  occurs_in m s -> occurs_in m (rstrip_by p s).
Proof.
  intros (m0 & z & -> & Pz) (a & b & ->).
  replace (a ++ (m0 ++ [z]) ++ b) with ((a ++ m0) ++ z :: b)
    by (now rewrite <- !app_assoc).
  rewrite rstrip_by_app_keep by exact Pz.
  exists a, (rstrip_by p b). now rewrite <- !app_assoc.
Qed.

Lemma occurs_in_part m a s b : occurs_in m s -> occurs_in m (a ++ s ++ b).
Proof.
  intros (x & y & ->). exists (a ++ x), (y ++ b). now rewrite <- !app_assoc.
Qed.

(** stripping a text neither removes nor creates an occurrence of a word
    that neither begins nor ends with a stripped character *)
Lemma occurs_in_strip_by p m s :
  (exists x m', m = x :: m' /\ p x = false) ->
  (exists m0 z, m = m0 ++ [z] /\ p z = false) ->
  occurs_in m (strip_by p s) <-> occurs_in m s.
Proof.
  intros Hfirst Hlast. unfold strip_by. split.
  - intros H. destruct (lstrip_by_prefix p s) as (a & Hs & _).
    destruct (rstrip_by_suffix p (lstrip_by p s)) as (b & Hl & _).
    rewrite Hs, Hl. now apply occurs_in_part.
  - intros H. now apply occurs_in_rstrip, occurs_in_lstrip.
Qed.

Lemma first_marker_ext ms a b :
  (forall m, In m ms -> contains m a = contains m b) ->
  first_marker ms a = first_marker ms b.
Proof.
  induction ms as [|m ms IH]; intros H; [reflexivity |].
  cbn [first_marker]. rewrite (H m (or_introl eq_refl)).
  rewrite IH by (intros k Hk; apply H; now right). reflexivity.
Qed.

Lemma contains_ext m a b :
  (occurs_in m a <-> occurs_in m b) -> contains m a = contains m b.
Proof.
  intros H. destruct (contains m b) eqn:E.
  - apply contains_spec. apply H. now apply contains_spec.
  - apply contains_false. intros Ha. apply contains_false in E. tauto.
Qed.

(** X2.  The marker of a finding, detected in the text as parsed, is also
    what the same detection finds in the text as stored (stripped of the
    whitespace at both ends): the marker and content columns never
    disagree. *)
Theorem marker_matches_stored_content rt parsed ctx_snippet :
  let it := make_item rt parsed ctx_snippet in
  detect_marker (content it) = marker it
  /\ (marker it <> NOTE -> occurs_in (marker it) (content it)).
Proof.
  destruct parsed as [[f n] c]. cbv zeta. rewrite make_item_eq.
  cbn [content marker].
  assert (Hc : forall m, In m MARKERS ->
                         occurs_in m (strip rt c) <-> occurs_in m c).
  { intros m Hm. unfold strip. unfold MARKERS in Hm. cbn [In] in Hm.
    repeat (destruct Hm as [<- | Hm];
            [apply occurs_in_strip_by;
             [eexists _, _; split; [reflexivity | reflexivity]
             | match goal with
               | |- exists m0 z, ?m = _ /\ _ =>
                   exists (removelast m), (last m 0%N);
                   split; [reflexivity | reflexivity]
               end] |]).
    destruct Hm. }
  assert (E : first_marker MARKERS (strip rt c) = first_marker MARKERS c).
  { apply first_marker_ext. intros m Hm. apply contains_ext. now apply Hc. }
  split.
  - unfold detect_marker. now rewrite E.
  - unfold detect_marker. destruct (first_marker MARKERS c) as [m|] eqn:Em.
    + pose proof (first_marker_in _ _ _ Em) as Hin.
      assert (Hne : is_empty m = false).
      { unfold MARKERS in Hin. cbn [In] in Hin.
        repeat (destruct Hin as [<- | Hin]; [reflexivity |]). destruct Hin. }
      rewrite Hne. intros _. apply Hc; [exact Hin |].
      clear E Hc. revert Em. generalize MARKERS as ms.
      induction ms as [|k ms IH]; cbn [first_marker]; [discriminate |].
      destruct (contains k c) eqn:Ek.
      * intros [= <-]. now apply contains_spec.
      * exact IH.
    + intros H. now destruct H.
Qed.

(** ** X3: the documents of a run have different names *)

(** X3.  Two documents with different (non-negative) ids have different
    file names, whatever the texts of their findings: findings whose safe
    titles coincide never overwrite each other. *)
Theorem doc_filenames_distinct rt w i j a b :
  (0 <= i)%Z -> (0 <= j)%Z -> i <> j ->
  doc_filename rt w i a <> doc_filename rt w j b.
Proof.
  intros Hi Hj Hne H. apply Hne. unfold doc_filename in H.
  apply app_inv_head in H. change (u "/") with [47%N] in H.
  change (u "-") with [45%N] in H. cbn [app] in H. injection H as H.
  assert (F : forall z, (0 <= z)%Z ->
                        format_04d z = zfill 4 (str_of_N (Z.to_N z)))
    by (intros [|q|q] Hz; [reflexivity | reflexivity | lia]).
  rewrite (F i Hi), (F j Hj) in H.
  assert (D : forall n, ~ In 45%N (zfill 4 (str_of_N n)))
    by (intros n; apply digit_not_sign, zfill_digits, digits_of_uint_digits).
  apply (f_equal (fun s => split 45 s 1)) in H.
  rewrite !split_at_sep in H by apply D. injection H as H _.
  apply (f_equal decimal_value) in H.
  rewrite !decimal_value_zfill, !decimal_value_str_of_N in H. lia.
Qed.

Lemma doc_filenames_distinct_witness :
  let w := {| ROOT := u "/repo"; input := None; source := fun _ => None;
              write_error := fun _ => None |} in
  let it := {| file := u "a.c"; line := 1%Z; marker := u "TODO";
               content := u "TODO: same title"; context := [];
               priority := u "Medium"; owner := u "Engineer";
               estimate_hours := 16%Z; labels := u "medium;todo" |} in
  doc_filename ascii_runtime w 1 it <> doc_filename ascii_runtime w 2 it.
Proof.
  cbv zeta. apply doc_filenames_distinct; lia.
Defined.

(** ** X4: a record written as file:line:text parses back *)

Lemma to_ascii_decimal_digits rt ds :
  Forall (fun c => is_ascii_digit c = true) ds ->
  map (to_ascii_decimal rt) ds = ds.
Proof.
  induction 1 as [|c ds Hc _ IH]; [reflexivity |].
  cbn [map]. rewrite IH. f_equal. unfold to_ascii_decimal.
  unfold is_ascii_digit, in_range in Hc.
  apply andb_true_iff in Hc as [_ Hc]. apply N.leb_le in Hc.
  destruct (N.ltb_spec c 127); [reflexivity | lia].
Qed.

Lemma parse_unsigned_digits rt ds :
  ds <> [] ->
  Forall (fun c => is_ascii_digit c = true) ds ->
  (length ds <= 640)%nat ->
  parse_unsigned rt ds = Some (decimal_value ds).
Proof.
  intros Hne H Hlen. destruct ds as [|c ds]; [congruence |].
  inversion H as [|? ? Hc Hds]; subst.
  unfold parse_unsigned. rewrite Hc, (scan_digits_all _ _ _ Hds).
  cbn [lstrip_by is_empty andb]. unfold digits_allowed.
  cbn [length] in Hlen.
  destruct (N.ltb_spec 640 (1 + N.of_nat (length ds))); [lia |].
  reflexivity.
Qed.

(** [int(str(z))] is [z] *)
Lemma py_int_str_of_int rt z :
  (length (str_of_int z) <= 640)%nat -> py_int rt (str_of_int z) = Some z.
Proof.
  intros Hlen.
  assert (P : forall n, (length (str_of_N n) <= 640)%nat ->
                        parse_unsigned rt (str_of_N n) = Some (Z.of_N n)).
  { intros n Hn. rewrite <- decimal_value_str_of_N.
    apply parse_unsigned_digits;
      [apply str_of_N_nonempty | apply digits_of_uint_digits | exact Hn]. }
  destruct z as [|q|q].
  - apply (py_int_digits rt (str_of_int 0)); [discriminate | | exact Hlen].
    repeat constructor.
  - unfold str_of_int in *. cbn [Z.to_N] in *.
    rewrite (py_int_digits rt);
      [now rewrite decimal_value_str_of_N | apply str_of_N_nonempty
      | apply digits_of_uint_digits | exact Hlen].
  - unfold str_of_int in *. unfold py_int. cbn [map].
    rewrite to_ascii_decimal_digits by apply digits_of_uint_digits.
    change (to_ascii_decimal rt 45) with 45%N. cbn [lstrip_by].
    change (c_isspace 45) with false. cbn [N.eqb Pos.eqb].
    rewrite P by (cbn [length] in Hlen; lia). reflexivity.
Qed.

Lemma strip_by_fixed p s :
  (forall c, In c s -> p c = false) -> strip_by p s = s.
Proof.
  intros H. unfold strip_by. rewrite (lstrip_by_fixed _ _ H).
  apply rstrip_by_fixed. intros a c ->. apply H, in_or_app. right. now left.
Qed.

Lemma str_of_int_chars z c :
  In c (str_of_int z) -> is_ascii_digit c = true \/ c = 45%N.
Proof.
  assert (D : forall n, In c (str_of_N n) -> is_ascii_digit c = true).
  { intros n Hc. pose proof (digits_of_uint_digits (N.to_uint n)) as F.
    rewrite Forall_forall in F. now apply F. }
  unfold str_of_int. destruct z as [|q|q].
  - intros H. left. now apply (D _ H).
  - intros H. left. now apply (D _ H).
  - intros [<- | H]; [now right | left; now apply (D _ H)].
Qed.

(** X4.  A path without colon or surrounding whitespace, an integer, and a
    text without trailing whitespace, written as [path:line:text], are
    parsed back to exactly these three values (for integers of at most 640
    characters, which [int] reads whatever its limit). *)
Theorem parse_line_of_record rt f n text :
  ~ In COLON f ->
  strip rt f = f ->
  rstrip rt text = text ->
  (length (str_of_int n) <= 640)%nat ->
  parse_line rt (f ++ COLON :: str_of_int n ++ COLON :: text)
  = Some (f, n, text).
Proof.
  intros Hf Hsf Hst Hlen.
  assert (Hc : forall c, In c (str_of_int n) ->
                         c <> COLON /\ isspace rt c = false).
  { intros c Hin. destruct (str_of_int_chars _ _ Hin) as [Hd | ->].
    - unfold is_ascii_digit, in_range in Hd.
      apply andb_true_iff in Hd as [A B]. apply N.leb_le in A.
      apply N.leb_le in B. split; [unfold COLON; lia |].
      unfold isspace, in_range.
      destruct (N.ltb_spec c 128); [| lia].
      destruct (N.leb_spec c 13); [lia |]. rewrite andb_false_r.
      destruct (N.leb_spec c 32); [lia |]. now rewrite andb_false_r.
    - split; [discriminate | reflexivity]. }
  rewrite parse_line_three;
    [| exact Hf | intros Hin; now destruct (Hc _ Hin)].
  rewrite Hsf, Hst. unfold strip.
  rewrite strip_by_fixed by (intros c Hin; now apply Hc).
  now rewrite py_int_str_of_int.
Qed.

Lemma parse_line_of_record_witness :
  parse_line ascii_runtime (u "drivers/virtio.c:-12:// FIXME: a:b")
  = Some (u "drivers/virtio.c", (-12)%Z, u "// FIXME: a:b").
Proof.
  apply (parse_line_of_record ascii_runtime (u "drivers/virtio.c") (-12)
           (u "// FIXME: a:b")).
  - vm_compute. intuition discriminate.
  - vm_compute. reflexivity.
  - vm_compute. reflexivity.
  - vm_compute. lia.
Defined.

(** ** X5: how a run ends *)





(** a run in which the document cannot be written still returns; a run in
    which the lookup of a referenced file raises stops after creating the
    directory *)
Example run_outcome_ex :
  let w := {| ROOT := u "/repo";
              input := Some (ReadOk (u "a.c:3: // TODO one" ++ [LF]));
              source := fun _ => None;
              write_error := fun p =>
                if str_eqb p (u "/repo/docs/issues/0001-TODO_one.md")
                then Some (u "[Errno 13] Permission denied")
                else None |} in
  let w' := {| ROOT := u "/repo";
               input := Some (ReadOk (u "a.c:3: // TODO one" ++ [LF]
                                      ++ u "b.c:4: // TODO two" ++ [LF]));
               source := fun p =>
                 if str_eqb p (u "b.c")
                 then Some (LookupError (u "[Errno 36] File name too long"))
                 else None;
               write_error := fun _ => None |} in
  snd (main ascii_runtime w) = Returned
  /\ nth_error (fst (main ascii_runtime w)) 2
     = Some (Print (u "Failed writing /repo/docs/issues/0001-TODO_one.md [Errno 13] Permission denied"
                    ++ [LF]))
  /\ main ascii_runtime w'
     = ([Mkdir (u "/repo/docs/issues")],
        Raised (u "[Errno 36] File name too long")).
Proof. repeat split; vm_compute; reflexivity. Qed.

(** ** X6: where a run writes *)

Lemma format_04d_chars z c :
  In c (format_04d z) -> is_ascii_digit c = true \/ c = 45%N.
Proof.
  assert (D : forall k n, In c (zfill k (str_of_N n)) -> is_ascii_digit c = true).
  { intros k n Hc.
    pose proof (zfill_digits k _ (digits_of_uint_digits (N.to_uint n))) as F.
    rewrite Forall_forall in F. now apply F. }
  unfold format_04d. destruct z as [|q|q].
  - intros H. left. now apply (D _ _ H).
  - intros H. left. now apply (D _ _ H).
  - intros [<- | H]; [now right | left; now apply (D _ _ H)].
Qed.

Lemma doc_name_no_slash rt i it :
  ~ In SLASH (format_04d i ++ u "-" ++ doc_safe rt it ++ u ".md").
Proof.
  intros H. apply in_app_or in H as [H | H].
  - destruct (format_04d_chars _ _ H) as [D | D]; discriminate D.
  - apply in_app_or in H as [H | H].
    + simpl in H. destruct H as [H | []]. discriminate H.
    + apply in_app_or in H as [H | H].
      * apply sanitize_title_token in H. discriminate H.
      * simpl in H. repeat (destruct H as [H | H]; [discriminate H |]).
        destruct H.
Qed.

(** X6.  Whatever the report says, a run creates no directory but
    [docs/issues] and writes no file but direct children of it (no name it
    writes holds a slash): in particular it never writes the report nor a
    file that an annotation names. *)
Theorem writes_stay_in_outdir rt w e :
  In e (fst (main rt w)) ->
  match e with
  | Print _ => True
  | Mkdir p => p = OUTDIR w
  | WriteText p _ =>
      (exists name, p = OUTDIR w ++ SLASH :: name
                    /\ name <> [] /\ ~ In SLASH name)
      /\ p <> INPUT w
  end.
Proof.
  assert (Hin : forall name, OUTDIR w ++ SLASH :: name <> INPUT w).
  { intros name H. unfold OUTDIR, INPUT in H. rewrite <- app_assoc in H.
    apply app_inv_head in H. vm_compute in H. discriminate H. }
  assert (Hdoc : forall items e, In e (write_docs rt w items) ->
                 match e with
                 | Print _ => True
                 | Mkdir p => p = OUTDIR w
                 | WriteText p _ =>
                     (exists name, p = OUTDIR w ++ SLASH :: name
                                   /\ name <> [] /\ ~ In SLASH name)
                     /\ p <> INPUT w
                 end).
  { intros items x Hx. unfold write_docs in Hx.
    apply in_map_iff in Hx as ([i it] & <- & _). unfold write_doc.
    cbn [fst snd]. destruct (write_error w (doc_filename rt w i it));
      [exact I |].
    unfold doc_filename. change (u "/") with [SLASH]. cbn [app].
    split; [| apply Hin].
    eexists. split; [reflexivity |]. split; [| apply doc_name_no_slash].
    intros E. apply (f_equal (@length N)) in E.
    rewrite !length_app in E. simpl in E. lia. }
  assert (Hfix : forall name,
             name = u "todos.csv" \/ name = u "README.md" ->
             (exists n, OUTDIR w ++ u "/" ++ name = OUTDIR w ++ SLASH :: n
                        /\ n <> [] /\ ~ In SLASH n)
             /\ OUTDIR w ++ u "/" ++ name <> INPUT w).
  { intros name Hn. change (u "/") with [SLASH]. cbn [app].
    split; [| apply Hin]. exists name. split; [reflexivity |].
    destruct Hn as [-> | ->]; split; try discriminate;
      intros H; simpl in H;
      repeat (destruct H as [H | H]; [discriminate H |]); destruct H. }
  unfold main. destruct (input w) as [[text | err | err] |].
  - destruct (write_error w (OUTDIR w)); [intros [] |].
    destruct (read_items rt w (file_lines text)) as [items | err];
      [| intros [<- | []]; reflexivity].
    destruct (write_error w (OUTCSV w)).
    + intros [<- | []]. reflexivity.
    + destruct (write_error w (OUTDIR w ++ u "/README.md")); cbn [fst].
      * intros [<- | [<- | H]]; [reflexivity | | now apply (Hdoc items)].
        unfold OUTCSV. apply Hfix. now left.
      * intros [<- | [<- | H]]; [reflexivity | |].
        -- unfold OUTCSV. apply Hfix. now left.
        -- apply in_app_or in H as [H | [<- | [<- | []]]];
             [now apply (Hdoc items) | | exact I].
           apply Hfix. now right.
  - destruct (write_error w (OUTDIR w)); [intros [] |].
    intros [<- | []]. reflexivity.
  - intros [].
  - intros [<- | []]. exact I.
Qed.

Lemma writes_stay_in_outdir_witness :
  let w := {| ROOT := u "/repo";
              input := Some (ReadOk (u "../../etc/passwd:1: // TODO: ../../x" ++ [LF]));
              source := fun _ => None;
              write_error := fun _ => None |} in
  nth_error (fst (main ascii_runtime w)) 2
  = Some (WriteText (u "/repo/docs/issues/0001-TODO_x.md")
            (doc_body 1 (make_item ascii_runtime
                           (u "../../etc/passwd", 1%Z, u " // TODO: ../../x")
                           (u "(file not found)"))))
  /\ u "/repo/docs/issues/0001-TODO_x.md" <> INPUT w.
Proof.
  cbv zeta.
  assert (E : nth_error
                (fst (main ascii_runtime
                        {| ROOT := u "/repo";
                           input := Some (ReadOk (u "../../etc/passwd:1: // TODO: ../../x" ++ [LF]));
                           source := fun _ => None;
                           write_error := fun _ => None |})) 2
              = Some (WriteText (u "/repo/docs/issues/0001-TODO_x.md")
                        (doc_body 1
                           (make_item ascii_runtime
                              (u "../../etc/passwd", 1%Z, u " // TODO: ../../x")
                              (u "(file not found)")))))
    by (vm_compute; reflexivity).
  split; [exact E |].
  apply nth_error_In in E.
  exact (proj2 (writes_stay_in_outdir ascii_runtime _ _ E)).
Defined.

(** ** X7: the context snippet of a plausible line number *)

(** X7.  For a line number from -3 upwards (0, the unknown line, included)
    the snippet is made of the lines with 0-based index from
    [max(0, line_no - 4)] up to but excluding [min(len, line_no + 3)], each
    behind its 1-based number: at most seven lines, all of the file, and
    exactly the seven around the match when the match is at least three
    lines away from both ends. *)
Theorem snippet_window_in_range all_lines line_no :
  (-3 <= line_no)%Z ->
  let len := Z.of_nat (length all_lines) in
  snippet_of all_lines line_no
  = join [LF]
      (map (fun i => str_of_int (i + 1) ++ u ": "
                     ++ nth (Z.to_nat i) all_lines [])
         (window len line_no))
  /\ (length (window len line_no) <= 7)%nat
  /\ (forall i, In i (window len line_no) ->
                 (0 <= i < len)%Z /\ (line_no - 4 <= i < line_no + 3)%Z)
  /\ ((4 <= line_no)%Z -> (line_no + 3 <= len)%Z ->
      window len line_no
      = [line_no - 4; line_no - 3; line_no - 2; line_no - 1; line_no;
         line_no + 1; line_no + 2]%Z).
Proof.
  intros H. cbv zeta. split; [| split; [| split]].
  - now rewrite snippet_of_window.
  - unfold window, index_range. rewrite length_map, length_seq. lia.
  - intros i Hi. unfold window, index_range in Hi.
    apply in_map_iff in Hi as (k & <- & Hk). apply in_seq in Hk. lia.
  - apply window_seven.
Qed.

Lemma snippet_window_in_range_witness :
  snippet_of ten_lines 5
  = join [LF] [u "2: b"; u "3: c"; u "4: d"; u "5: e"; u "6: f"; u "7: g";
               u "8: h"]
  /\ snippet_of ten_lines 0 = join [LF] [u "1: a"; u "2: b"; u "3: c"].
Proof.
  split.
  - rewrite (proj1 (snippet_window_in_range ten_lines 5 ltac:(lia))).
    vm_compute. reflexivity.
  - rewrite (proj1 (snippet_window_in_range ten_lines 0 ltac:(lia))).
    vm_compute. reflexivity.
Defined.

(** ** X8: keywords decide *)

Lemma literal_matches_self rt p : literal_matches rt p p = true.
Proof.
  unfold literal_matches. destruct (is_ascii_letter p).
  - now rewrite N.eqb_refl.
  - apply N.eqb_refl.
Qed.

Lemma match_here_word rt alt kw prev b :
  word_of alt = Some kw ->
  match_here rt alt prev (map ascii_upper kw ++ b) = true.
Proof.
  revert kw prev. induction alt as [|[p|] alt IH]; intros kw prev H.
  - reflexivity.
  - cbn [word_of] in H. destruct (word_of alt) as [k|]; [| discriminate].
    injection H as <-. cbn [map app match_here].
    rewrite literal_matches_upper, literal_matches_self. now apply IH.
  - discriminate.
Qed.

Lemma search_from_found rt rx alt prev a s :
  In alt rx ->
  (forall prev', match_here rt alt prev' s = true) ->
  search_from rt rx prev (a ++ s) = true.
Proof.
  intros Hin Hm. revert prev. induction a as [|x a IH]; intros prev.
  - assert (E : existsb (fun alt => match_here rt alt prev s) rx = true)
      by (apply existsb_exists; now exists alt).
    destruct s; cbn [app search_from]; now rewrite E.
  - cbn [app search_from]. rewrite IH. apply orb_true_r.
Qed.

(** a context that holds a keyword of a rule, in whatever letter case, is
    matched by the rule *)
Lemma keyword_matches rt r alt kw ctx :
  In alt (rx_of r) -> word_of alt = Some kw ->
  occurs_in (map ascii_upper kw) (map ascii_upper ctx) ->
  search rt (rx_of r) ctx = true.
Proof.
  intros Hin Hw (a & b & E). unfold search.
  change (@None N) with (option_map ascii_upper None).
  rewrite <- search_from_upper, E.
  apply (search_from_found rt _ alt); [exact Hin |].
  intros prev'. now apply match_here_word.
Qed.

Lemma keyword_not_default rt r alt kw path text :
  In r PRIORITY_MAP -> In alt (rx_of r) -> word_of alt = Some kw ->
  occurs_in (map ascii_upper kw) (map ascii_upper (path ++ u " " ++ text)) ->
  guess_props rt path text <> DEFAULT_PROPS.
Proof.
  intros Hr Hin Hw Hocc.
  pose proof (keyword_matches rt r alt kw _ Hin Hw Hocc) as Hs.
  unfold guess_props.
  destruct (first_match_spec rt PRIORITY_MAP (path ++ u " " ++ text))
    as [(pre & r' & post & E & _ & _ & ->) | [Hnone _]].
  - assert (Hr' : In r' PRIORITY_MAP)
      by (rewrite E; apply in_or_app; right; now left).
    clear -Hr'. unfold PRIORITY_MAP in Hr'. cbn [In] in Hr'.
    repeat (destruct Hr' as [<- | Hr']; [discriminate |]). destruct Hr'.
  - rewrite (Hnone r Hr) in Hs. discriminate.
Qed.

Lemma detect_marker_occurs text :
  detect_marker text <> NOTE -> occurs_in (detect_marker text) text.
Proof.
  unfold detect_marker. destruct (first_marker MARKERS text) as [m|] eqn:Em.
  - destruct (is_empty m); [intros H; now destruct H |]. intros _.
    revert Em. generalize MARKERS as ms.
    induction ms as [|k ms IH]; cbn [first_marker]; [discriminate |].
    destruct (contains k text) eqn:Ek.
    + intros [= <-]. now apply contains_spec.
    + exact IH.
  - intros H. now destruct H.
Qed.

Lemma occurs_in_map (f : N -> N) m s :
  occurs_in m s -> occurs_in (map f m) (map f s).
Proof.
  intros (a & b & ->). exists (map f a), (map f b). now rewrite !map_app.
Qed.

(** X8.  A keyword of a rule (an alternative of its pattern without word
    boundary) that occurs in path, blank, text, in whatever letter case,
    keeps the finding from the default classification; a keyword of the
    first rule makes it Critical, Kernel Engineer, 40 hours, whatever else
    the line holds; and a finding whose marker is placeholder is never
    classified by default. *)
Theorem keywords_decide rt path text :
  let ctx := map ascii_upper (path ++ u " " ++ text) in
  (forall kw, In kw KERNEL_WORDS ->
              occurs_in (map ascii_upper kw) ctx ->
              guess_props rt path text
              = (u "Critical", u "Kernel Engineer", 40%Z))
  /\ (forall r alt kw,
        In r PRIORITY_MAP -> In alt (rx_of r) -> word_of alt = Some kw ->
        occurs_in (map ascii_upper kw) ctx ->
        guess_props rt path text <> DEFAULT_PROPS)
  /\ (detect_marker text = u "placeholder" ->
      guess_props rt path text <> DEFAULT_PROPS).
Proof.
  cbv zeta. split; [| split].
  - intros kw Hkw Hocc.
    assert (Hs : search rt (rx_of (nth 0 PRIORITY_MAP
                                     ([], [], [], 0%Z))) (path ++ u " " ++ text)
                 = true).
    { apply (keyword_matches rt _ (map Lit kw) kw); [| | exact Hocc].
      - unfold KERNEL_WORDS in Hkw. cbn [In] in Hkw.
        repeat (destruct Hkw as [<- | Hkw];
                [vm_compute; tauto |]). destruct Hkw.
      - clear. induction kw as [|c kw IH]; [reflexivity |].
        cbn [map word_of]. now rewrite IH. }
    unfold guess_props. unfold PRIORITY_MAP in *. cbn [nth] in Hs.
    cbn [first_match]. unfold rx_of in Hs. cbn [fst] in Hs. now rewrite Hs.
  - intros r alt kw. apply keyword_not_default.
  - intros Hm.
    assert (Hocc : occurs_in (u "placeholder") text).
    { rewrite <- Hm. apply detect_marker_occurs. rewrite Hm. discriminate. }
    apply (keyword_not_default rt
             (nth 7 PRIORITY_MAP ([], [], [], 0%Z))
             (map Lit (u "placeholder")) (u "placeholder")).
    + vm_compute. tauto.
    + vm_compute. tauto.
    + reflexivity.
    + apply occurs_in_map.
      destruct Hocc as (a & b & ->).
      exists (path ++ u " " ++ a), b. now rewrite <- !app_assoc.
Qed.

Lemma keywords_decide_witness :
  guess_props ascii_runtime (u "drivers/net.c") (u "// TODO: wake the Scheduler")
  = (u "Critical", u "Kernel Engineer", 40%Z).
Proof.
  apply (proj1 (keywords_decide ascii_runtime (u "drivers/net.c")
                  (u "// TODO: wake the Scheduler")) (u "sched")).
  - vm_compute. tauto.
  - exists (u "DRIVERS/NET.C // TODO: WAKE THE "), (u "ULER").
    vm_compute. reflexivity.
Defined.

(** ** X9: the texts of a finding are normalised *)

(** a line of a file holds no line feed but, possibly, its last character *)
Lemma file_lines_spec text ln :
  In ln (file_lines text) ->
  exists body, ~ In LF body /\ (ln = body ++ [LF] \/ ln = body).
Proof.
  revert ln. induction text as [|c r IH]; intros ln; [intros [] |].
  cbn [file_lines]. destruct (N.eqb_spec c LF) as [-> | Hc].
  - intros [<- | H]; [| now apply IH].
    exists []. split; [intros [] | now left].
  - destruct (file_lines r) as [|l ls] eqn:E.
    + intros [<- | []]. exists [c]. split; [| now right].
      intros [H | []]. congruence.
    + intros [<- | H].
      * destruct (IH l (or_introl eq_refl)) as (body & Hb & Hl).
        exists (c :: body). split.
        -- intros [H | H]; [congruence | now apply Hb].
        -- destruct Hl as [-> | ->]; [now left | now right].
      * apply IH. now right.
Qed.

Lemma rstrip_LF_body body :
  ~ In LF body ->
  rstrip_by is_LF (body ++ [LF]) = body /\ rstrip_by is_LF body = body.
Proof.
  intros Hb.
  assert (E : rstrip_by is_LF body = body).
  { apply rstrip_by_fixed. intros a c ->. unfold is_LF.
    apply N.eqb_neq. intros ->. apply Hb, in_or_app. right. now left. }
  split; [| exact E].
  rewrite rstrip_by_app_drop by (repeat constructor). exact E.
Qed.

Lemma strip_by_incl p s c : In c (strip_by p s) -> In c s.
Proof. unfold strip_by. intros H. now apply rstrip_by_incl, lstrip_by_incl in H. Qed.

(** stripping twice is stripping once *)
Lemma strip_by_idem p s : strip_by p (strip_by p s) = strip_by p s.
Proof.
  unfold strip_by. pose proof (lstrip_by_head p s) as H.
  destruct (lstrip_by p s) as [|x t] eqn:E; [reflexivity |].
  assert (L : lstrip_by p (rstrip_by p (x :: t)) = rstrip_by p (x :: t)).
  { cbn [rstrip_by]. destruct (rstrip_by p t); rewrite ?H; cbn [lstrip_by];
      now rewrite H. }
  rewrite L. apply rstrip_by_fixed, rstrip_by_ends_clean.
Qed.

(** X9.  In a finding read from a line of the report, path and text are
    stripped (stripping them again changes nothing), the path holds no
    colon, and neither holds a line feed: in the table only the context
    column can span several lines. *)
Theorem finding_text_is_normalised rt w text ln it :
  In ln (file_lines text) ->
  read_line rt w ln = Found it ->
  strip rt (file it) = file it
  /\ strip rt (content it) = content it
  /\ ~ In COLON (file it)
  /\ ~ In LF (file it)
  /\ ~ In LF (content it).
Proof.
  intros Hln Hr. destruct (file_lines_spec _ _ Hln) as (body & Hb & Hl).
  destruct (rstrip_LF_body body Hb) as [E1 E2].
  assert (E : rstrip_by is_LF ln = body) by (destruct Hl as [-> | ->]; assumption).
  unfold read_line in Hr. rewrite E in Hr.
  destruct (is_empty body); [discriminate |].
  destruct (parse_line rt body) as [parsed|] eqn:P; [| discriminate].
  destruct (context_of w (fst (fst parsed)) (snd (fst parsed)))
    as [ctx_snippet|]; [| discriminate].
  injection Hr as <-.
  assert (C : (2 <= colons body)%nat).
  { destruct (Nat.lt_ge_cases (colons body) 2) as [H | H]; [| exact H].
    apply (parse_line_none rt) in H. congruence. }
  destruct (two_colons body C) as (p0 & p1 & p2 & -> & H0 & H1).
  rewrite parse_line_three in P by assumption. injection P as <-.
  rewrite make_item_eq. cbn [file content]. unfold strip, rstrip.
  assert (B : forall c, In c p0 \/ In c p2 ->
                        In c (p0 ++ COLON :: p1 ++ COLON :: p2)).
  { intros c [H | H]; apply in_or_app; [now left | right].
    right. apply in_or_app. right. now right. }
  repeat split.
  - apply strip_by_idem.
  - apply strip_by_idem.
  - intros H. now apply strip_by_incl in H.
  - intros H. apply strip_by_incl in H. apply Hb, B. now left.
  - intros H. apply strip_by_incl, rstrip_by_incl in H. apply Hb, B. now right.
Qed.

Lemma finding_text_is_normalised_witness :
  exists it,
    read_line ascii_runtime
      {| ROOT := []; input := None; source := fun _ => None;
         write_error := fun _ => None |}
      (u "  fs/inode.c : 7 :   // TODO: a:b   " ++ [LF]) = Found it
    /\ file it = u "fs/inode.c" /\ content it = u "// TODO: a:b"
    /\ ~ In LF (content it).
Proof.
  eexists. split; [vm_compute; reflexivity |].
  split; [reflexivity |]. split; [reflexivity |].
  refine (proj2 (proj2 (proj2 (proj2
           (finding_text_is_normalised ascii_runtime
              {| ROOT := []; input := None; source := fun _ => None;
                 write_error := fun _ => None |}
              (u "  fs/inode.c : 7 :   // TODO: a:b   " ++ [LF]) _ _ _ _))))).
  - vm_compute. left. reflexivity.
  - vm_compute. reflexivity.
Defined.

(** ** X10: a report without findings *)

Lemma read_line_few_colons rt w ln :
  (colons ln < 2)%nat -> read_line rt w ln = Skip.
Proof.
  intros H. unfold read_line.
  destruct (is_empty (rstrip_by is_LF ln)); [reflexivity |].
  assert (E : parse_line rt (rstrip_by is_LF ln) = None)
    by (apply parse_line_none; now rewrite colons_rstrip_LF).
  now rewrite E.
Qed.

(** X10.  When no line of the report has two colons (an empty report
    included) and the files can be written, the run still creates the
    directory and writes the table, which then holds the header row alone,
    writes the index, reports 0 items, and writes no document. *)
Theorem empty_report_header_only rt w text :
  input w = Some (ReadOk text) ->
  (forall ln, In ln (file_lines text) -> (colons ln < 2)%nat) ->
  (forall p, write_error w p = None) ->
  main rt w
  = ([Mkdir (OUTDIR w);
      WriteText (OUTCSV w)
        (u "id,file,line,marker,content,context,priority,owner,estimate_hours,labels"
         ++ [CR; LF]);
      WriteText (README w) README_TEXT;
      Print (u "Done: 0 items -> " ++ OUTCSV w ++ [LF]
             ++ u "Per-item markdown files under " ++ OUTDIR w ++ [LF])],
     Returned).
Proof.
  intros Hin Hl Hw.
  assert (E : read_items rt w (file_lines text) = Ok []).
  { induction (file_lines text) as [|ln ls IH]; [reflexivity |].
    cbn [read_items]. rewrite read_line_few_colons by (apply Hl; now left).
    apply IH. intros l H. apply Hl. now right. }
  unfold main. rewrite Hin, !Hw, E. reflexivity.
Qed.

Lemma empty_report_header_only_witness :
  fst (main ascii_runtime
         {| ROOT := u "/repo"; input := Some (ReadOk []);
            source := fun _ => None; write_error := fun _ => None |})
  = [Mkdir (u "/repo/docs/issues");
     WriteText (u "/repo/docs/issues/todos.csv")
       (u "id,file,line,marker,content,context,priority,owner,estimate_hours,labels"
        ++ [CR; LF]);
     WriteText (u "/repo/docs/issues/README.md") README_TEXT;
     Print (u "Done: 0 items -> /repo/docs/issues/todos.csv" ++ [LF]
            ++ u "Per-item markdown files under /repo/docs/issues" ++ [LF])].
Proof.
  rewrite (empty_report_header_only ascii_runtime
             {| ROOT := u "/repo"; input := Some (ReadOk []);
                source := fun _ => None; write_error := fun _ => None |} []).
  - reflexivity.
  - reflexivity.
  - intros ln [].
  - reflexivity.
Defined.

(** ** X11: texts with the same safe title *)

(** X11.  The safe title depends on a text only through its characters of
    [[0-9A-Za-z_ -]], and through at most the first 60 of them once the
    whitespace is stripped and collapsed: texts that differ in other
    characters, or beyond that point, get the same safe title. *)
Theorem safe_title_collisions rt a b :
  (filter title_char a = filter title_char b ->
   sanitize_title rt a = sanitize_title rt b)
  /\ (firstn 60 (collapse_whitespace rt false (strip rt (filter title_char a)))
      = firstn 60 (collapse_whitespace rt false (strip rt (filter title_char b))) ->
      sanitize_title rt a = sanitize_title rt b).
Proof.
  split; intros H; rewrite !sanitize_title_core; unfold title_core;
    now rewrite H.
Qed.

Example safe_title_collisions_ex :
  sanitize_title ascii_runtime (u "// TODO: fix (this)!")
  = sanitize_title ascii_runtime (u "TODO   fix this")
  /\ sanitize_title ascii_runtime (u "TODO   fix this") = u "TODO_fix_this".
Proof. split; vm_compute; reflexivity. Qed.

(** ** X12: lines that give no finding *)




(** ** X13: document names are portable *)

Lemma format_04d_length i :
  (0 <= i < 10000)%Z -> length (format_04d i) = 4%nat.
Proof.
  intros H.
  assert (A : forallb (fun k => length (format_04d (Z.of_nat k)) =? 4)%nat
                (seq 0 (Z.to_nat 10000)) = true) by (vm_compute; reflexivity).
  rewrite forallb_forall in A.
  specialize (A (Z.to_nat i)). rewrite Z2Nat.id in A by lia.
  apply Nat.eqb_eq, A, in_seq. lia.
Qed.

(** X13.  For ids below 10000 the name of a document is the four-digit
    id, a hyphen, the safe title and [.md]: between 9 and 68 characters,
    all of them among [[0-9A-Za-z._-]], the first one a digit. *)
Theorem doc_name_portable rt w i it :
  (0 <= i < 10000)%Z ->
  doc_filename rt w i it = OUTDIR w ++ u "/" ++ doc_name rt i it
  /\ forallb portable_char (doc_name rt i it) = true
  /\ (9 <= length (doc_name rt i it) <= 68)%nat
  /\ (exists d rest, doc_name rt i it = d :: rest /\ is_ascii_digit d = true).
Proof.
  intros H. split; [reflexivity |].
  pose proof (format_04d_length i H) as L.
  assert (F : format_04d i = zfill 4 (str_of_N (Z.to_N i)))
    by (destruct i as [|q|q]; [reflexivity | reflexivity | lia]).
  assert (D : Forall (fun c => is_ascii_digit c = true) (format_04d i))
    by (rewrite F; apply zfill_digits, digits_of_uint_digits).
  split; [| split].
  - apply forallb_forall. intros c Hc. unfold doc_name in Hc.
    apply in_app_or in Hc as [Hc | Hc].
    + rewrite Forall_forall in D. specialize (D c Hc).
      unfold portable_char, is_ascii_alnum. now rewrite D.
    + apply in_app_or in Hc as [Hc | Hc].
      * destruct Hc as [<- | []]. reflexivity.
      * apply in_app_or in Hc as [Hc | Hc].
        -- unfold doc_safe in Hc. apply sanitize_title_token in Hc.
           unfold portable_char. unfold token_char in Hc. now rewrite Hc.
        -- simpl in Hc. repeat (destruct Hc as [<- | Hc]; [reflexivity |]).
           destruct Hc.
  - unfold doc_name. rewrite !length_app, L.
    pose proof (sanitize_title_length rt (prefix 80 (content it))) as S.
    unfold doc_safe. change (length (u "-")) with 1%nat.
    change (length (u ".md")) with 3%nat. lia.
  - unfold doc_name. destruct (format_04d i) as [|d r]; [discriminate L |].
    exists d, (r ++ u "-" ++ doc_safe rt it ++ u ".md").
    split; [reflexivity |]. now inversion D.
Qed.

Lemma doc_name_portable_witness :
  let it := {| file := u "a.c"; line := 1%Z; marker := u "TODO";
               content := u "TODO: what/ever?!"; context := [];
               priority := u "Medium"; owner := u "Engineer";
               estimate_hours := 16%Z; labels := u "medium;todo" |} in
  doc_name ascii_runtime 42 it = u "0042-TODO_whatever.md"
  /\ forallb portable_char (doc_name ascii_runtime 42 it) = true.
Proof.
  cbv zeta. split; [vm_compute; reflexivity |].
  refine (proj1 (proj2 (doc_name_portable ascii_runtime
                          {| ROOT := []; input := None; source := fun _ => None;
                             write_error := fun _ => None |} 42 _ _))).
  lia.
Defined.
